(** * positionGoalActionServer: point-navigation controller

    A shallow embedding of
    [fmExecutors/platform/position_action_server/scripts/positionGoalActionServer.py]:
    the 2D [vector] utility class and the [positionGoalActionServer] action
    server (its [execute] loop and its two callbacks).

    Numbers.  The program computes with Python floats.  Here a finite float
    is a real number ([R]) and arithmetic is exact; the two non-finite
    results that finite inputs can produce (a division by zero yields
    [nan] or an infinity on a numpy scalar) are kept as the extra
    constructors of [pyfloat].  Rounding is abstracted at the one place
    where the program guards against it: [vector_angle_fl] takes the
    division of [angle] as a parameter, and [vector_angle] is its instance
    with the exact quotient.

    Effects.  The ROS side (the publisher, the action server's flags, the
    shutdown flag and the clock) is an explicit environment record threaded
    through the code; a call that can raise returns an [option].

    Threads.  The loop of [execute] and the callbacks run in different
    threads on the same object.  [execute_loop] follows the runs in which
    callbacks arrive between two passes of the loop; [run_threads] follows
    the loop and the preemption callback statement group by statement
    group, in any order the two threads allow. *)

From Stdlib Require Import Reals Lra Bool List.
Import ListNotations.

Open Scope R_scope.

(** ** Floats *)

(** A float as the program can meet it: a finite value, an infinity
    ([Inf true] is [+inf]), or [nan]. *)
Inductive pyfloat : Type :=
| Num (r : R)
| Inf (positive : bool)
| NaN.

(** [a > b], [a < b] and [a != b] against a finite right operand.  Every
    ordered comparison with [nan] is false, and [nan != b] is true. *)
Definition py_gt (a : pyfloat) (b : R) : bool :=
  match a with
  | Num r => if Rgt_dec r b then true else false
  | Inf p => p
  | NaN => false
  end.

Definition py_lt (a : pyfloat) (b : R) : bool :=
  match a with
  | Num r => if Rlt_dec r b then true else false
  | Inf p => negb p
  | NaN => false
  end.

Definition py_ne (a : pyfloat) (b : R) : bool :=
  match a with
  | Num r => if Req_dec_T r b then false else true
  | Inf _ => true
  | NaN => true
  end.

(** Unary minus. *)
Definition py_neg (a : pyfloat) : pyfloat :=
  match a with
  | Num r => Num (- r)
  | Inf p => Inf (negb p)
  | NaN => NaN
  end.

(** [x / y] where [x] is a numpy scalar (the result of [np.dot]): a zero
    divisor does not raise, it gives [nan] for [0/0] and a signed infinity
    otherwise. *)
Definition np_divide (x y : R) : pyfloat :=
  if Req_dec_T y 0 then
    if Req_dec_T x 0 then NaN
    else if Rlt_dec 0 x then Inf true else Inf false
  else Num (x / y).

(** [math.acos]: raises [ValueError] (here [None]) outside [[-1, 1]];
    [nan] goes through. *)
Definition math_acos (x : pyfloat) : option pyfloat :=
  match x with
  | Num r =>
      if Rle_dec (-1) r then
        if Rle_dec r 1 then Some (Num (acos r)) else None
      else None
  | Inf _ => None
  | NaN => Some NaN
  end.

(** [math.atan2 y x] on finite arguments. *)
Definition math_atan2 (y x : R) : R :=
  if Rlt_dec 0 x then atan (y / x)
  else if Rlt_dec x 0 then
    if Rle_dec 0 y then atan (y / x) + PI else atan (y / x) - PI
  else if Rlt_dec 0 y then PI / 2
  else if Rlt_dec y 0 then - (PI / 2)
  else 0.

(** [math.pow x 2]. *)
Definition math_pow2 (x : R) : R := x ^ 2.

(** ** class vector *)

(** [self.vec = [a, b]]. *)
Record vector : Type := mk_vector { vec0 : R; vec1 : R }.

(** [__sub__] *)
Definition vector_sub (self other : vector) : vector :=
  mk_vector (vec0 self - vec0 other) (vec1 self - vec1 other).

(** [np.dot] of two two-element lists. *)
Definition np_dot (a b : vector) : R :=
  vec0 a * vec0 b + vec1 a * vec1 b.

(** [length]: [math.sqrt(np.dot(self.vec, self.vec))].  The argument of the
    square root is a sum of two squares, so [math.sqrt] is always inside its
    domain (lemma [np_dot_self_nonneg]). *)
Definition vector_length (self : vector) : R :=
  sqrt (np_dot self self).

(** The three-way branch of [angle] on the quotient [tmp]. *)
Definition clamped_acos (tmp : pyfloat) : option pyfloat :=
  if py_gt tmp 1 then math_acos (Num 1)
  else if py_lt tmp (-1) then math_acos (Num (-1))
  else math_acos tmp.

(** [angle], with the division of line 28 as a parameter: [fl_div x y] is
    the quotient as the machine computes it, rounding included. *)
Definition vector_angle_fl (fl_div : R -> R -> pyfloat)
    (self other : vector) : option pyfloat :=
  let tmp :=
    fl_div (np_dot self other) (vector_length self * vector_length other) in
  clamped_acos tmp.

(** [angle] in exact arithmetic. *)
Definition vector_angle (self other : vector) : option pyfloat :=
  vector_angle_fl np_divide self other.

(** [rotate] *)
Definition vector_rotate (self : vector) (rad : R) : vector :=
  let new_x := cos rad * vec0 self - sin rad * vec1 self in
  let new_y := sin rad * vec0 self + cos rad * vec1 self in
  mk_vector new_x new_y.

(** ** Messages and the ROS environment *)

(** [rospy.Time]: a clock reading. *)
Definition Time : Type := nat.
Bind Scope nat_scope with Time.

(** [geometry_msgs/TwistStamped], the fields the program writes:
    [header.stamp], [twist.linear.x] and [twist.angular.z]. *)
Record TwistStamped : Type := mk_twist {
  stamp : Time;
  linear_x : R;
  angular_z : pyfloat
}.

(** [nav_msgs/Odometry], the fields [onOdometry] reads. *)
Record Odometry : Type := mk_odometry {
  orientation_x : R;
  orientation_y : R;
  orientation_z : R;
  orientation_w : R;
  position_x : R;
  position_y : R
}.

(** The goal of a [positionAction]. *)
Record positionGoal : Type := mk_goal { goal_x : R; goal_y : R }.

(** The three strings [execute] can return. *)
Inductive Outcome : Type := succeeded | preempted | aborted.

(** Everything outside the object: [rospy.is_shutdown()], the two flags of
    the action server, the terminal states set on the server
    ([set_succeeded], [set_preempted]; newest first), what was published on
    [twist_pub] (newest first) and [rospy.Time.now()]. *)
Record Env : Type := mk_env {
  is_shutdown : bool;
  is_new_goal_available : bool;
  is_preempt_requested : bool;
  server_status : list Outcome;
  published : list TwistStamped;
  now : Time
}.

Definition publish (t : TwistStamped) (e : Env) : Env :=
  mk_env (is_shutdown e) (is_new_goal_available e) (is_preempt_requested e)
         (server_status e) (t :: published e) (now e).

Definition set_status (o : Outcome) (e : Env) : Env :=
  mk_env (is_shutdown e) (is_new_goal_available e) (is_preempt_requested e)
         (o :: server_status e) (published e) (now e).

(** ** class positionGoalActionServer *)

(** [self.quaternion = [x, y, z, w]], indexed 0 to 3. *)
Record quaternion4 : Type := mk_quaternion {
  quat0 : R; quat1 : R; quat2 : R; quat3 : R
}.

(** The attributes of the object ([self]). *)
Record positionGoalActionServer : Type := mk_server {
  max_linear_velocity : R;
  max_angular_velocity : R;
  max_distance_error : R;
  twist : TwistStamped;
  destination : vector;
  position : vector;
  quaternion : quaternion4;
  distance_error : R;
  angle_error : pyfloat;
  z : R;
  w : R
}.

(** The attributes as [__init__] leaves them, for the given parameters. *)
Definition init (max_lin max_ang max_dist : R) : positionGoalActionServer :=
  mk_server max_lin max_ang max_dist
            (mk_twist 0%nat 0 (Num 0))
            (mk_vector 0 0) (mk_vector 0 0)
            (mk_quaternion 0 0 0 0)
            0 (Num 0) 0 0.

Definition set_twist (t : TwistStamped) (s : positionGoalActionServer) :=
  mk_server (max_linear_velocity s) (max_angular_velocity s)
            (max_distance_error s) t (destination s) (position s)
            (quaternion s) (distance_error s) (angle_error s) (z s) (w s).

Definition set_destination (d : vector) (s : positionGoalActionServer) :=
  mk_server (max_linear_velocity s) (max_angular_velocity s)
            (max_distance_error s) (twist s) d (position s)
            (quaternion s) (distance_error s) (angle_error s) (z s) (w s).

Definition set_position (p : vector) (s : positionGoalActionServer) :=
  mk_server (max_linear_velocity s) (max_angular_velocity s)
            (max_distance_error s) (twist s) (destination s) p
            (quaternion s) (distance_error s) (angle_error s) (z s) (w s).

Definition set_quaternion (q : quaternion4) (s : positionGoalActionServer) :=
  mk_server (max_linear_velocity s) (max_angular_velocity s)
            (max_distance_error s) (twist s) (destination s) (position s)
            q (distance_error s) (angle_error s) (z s) (w s).

Definition set_distance_error (d : R) (s : positionGoalActionServer) :=
  mk_server (max_linear_velocity s) (max_angular_velocity s)
            (max_distance_error s) (twist s) (destination s) (position s)
            (quaternion s) d (angle_error s) (z s) (w s).

Definition set_angle_error (a : pyfloat) (s : positionGoalActionServer) :=
  mk_server (max_linear_velocity s) (max_angular_velocity s)
            (max_distance_error s) (twist s) (destination s) (position s)
            (quaternion s) (distance_error s) a (z s) (w s).

(** The object together with its environment. *)
Record World : Type := mk_world {
  self : positionGoalActionServer;
  env : Env
}.

(** A twist with [linear.x = 0] and [angular.z = 0], whatever its stamp. *)
Definition zero_twist (t : TwistStamped) : Prop :=
  linear_x t = 0 /\ angular_z t = Num 0.

(** [preempt_cb]: stamp the twist, zero it, publish it, then
    [set_preempted]. *)
Definition preempt_cb (x : World) : World :=
  let t := mk_twist (now (env x)) 0 (Num 0) in
  mk_world (set_twist t (self x))
           (set_status preempted (publish t (env x))).

(** [onOdometry] *)
Definition onOdometry (msg : Odometry) (x : World) : World :=
  let q := mk_quaternion (orientation_x msg) (orientation_y msg)
                         (orientation_z msg) (orientation_w msg) in
  let p := mk_vector (position_x msg) (position_y msg) in
  mk_world (set_position p (set_quaternion q (self x))) (env x).

(** *** execute *)

(** Lines 100-102: the roll angle of the cached quaternion and the heading
    vector built from it. *)
Definition heading (q : quaternion4) : vector :=
  let roll :=
    math_atan2 (2 * (quat0 q * quat1 q + quat2 q * quat3 q))
               (1 - 2 * (math_pow2 (quat1 q) + math_pow2 (quat2 q))) in
  mk_vector (cos roll) (sin roll).

(** Lines 109-111: rotate the heading by the unsigned angle and compare with
    the path; the sign is flipped when the angle between them is not zero
    (a comparison of exact numbers here).
    With a [nan] angle the rotated vector has [nan] coordinates, its angle
    to the path is [nan], [nan != 0] holds and the flipped value is [nan]
    again; [math.cos] of an infinity raises. *)
Definition resolve_sign (head path : vector) (a : pyfloat) : option pyfloat :=
  match a with
  | Num r =>
      let t1 := vector_rotate head r in
      match vector_angle path t1 with
      | Some d => Some (if py_ne d 0 then py_neg a else a)
      | None => None
      end
  | Inf _ => None
  | NaN => Some NaN
  end.

(** Lines 105-111: the unsigned angle between heading and path, then its
    sign. *)
Definition signed_angle (head path : vector) : option pyfloat :=
  match vector_angle head path with
  | Some a0 => resolve_sign head path a0
  | None => None
  end.

(** Lines 118-121, on [twist.linear.x]. *)
Definition limit_linear (max x : R) : R :=
  let x1 := if Rgt_dec x max then max else x in
  if Rlt_dec x1 (- max) then - max else x1.

(** Lines 122-125, on [twist.angular.z]. *)
Definition limit_angular (max : R) (a : pyfloat) : pyfloat :=
  let a1 := if py_gt a max then Num max else a in
  if py_lt a1 (- max) then Num (- max) else a1.

(** One pass through the body of the [while] loop (lines 89-143).  [None]
    is an exception; the boolean tells whether the body ended in [break]. *)
Definition loop_body (x : World) : option (World * bool) :=
  if is_new_goal_available (env x) then Some (x, true)
  else
    let path := vector_sub (destination (self x)) (position (self x)) in
    let s1 := set_distance_error (vector_length path) (self x) in
    if Rgt_dec (distance_error s1) (max_distance_error s1) then
      let head := heading (quaternion s1) in
      match signed_angle head path with
      | None => None
      | Some a =>
          let s2 := set_angle_error a s1 in
          let lin := limit_linear (max_linear_velocity s2) (distance_error s2) in
          let ang := limit_angular (max_angular_velocity s2) (angle_error s2) in
          if is_preempt_requested (env x) then
            let t := mk_twist (stamp (twist s2)) lin ang in
            Some (mk_world (set_twist t s2) (env x), false)
          else
            let t := mk_twist (now (env x)) lin ang in
            Some (mk_world (set_twist t s2) (publish t (env x)), false)
      end
    else
      let t := mk_twist (now (env x)) 0 (Num 0) in
      Some (mk_world (set_twist t s1)
                     (publish t (set_status succeeded (env x))), true).

(** The return statement (lines 145-150). *)
Definition execute_return (e : Env) : Outcome :=
  if is_preempt_requested e then preempted
  else if is_shutdown e then aborted
  else succeeded.

(** What happens around the loop while [execute] runs. *)
Inductive Event : Type :=
| EvOdometry (msg : Odometry)
| EvCancel
| EvNewGoal
| EvShutdown
| EvClock (t : Time).

Definition request_preempt (new_goal : bool) (e : Env) : Env :=
  mk_env (is_shutdown e) (orb new_goal (is_new_goal_available e)) true
         (server_status e) (published e) (now e).

Definition shut_down (e : Env) : Env :=
  mk_env true (is_new_goal_available e) (is_preempt_requested e)
         (server_status e) (published e) (now e).

Definition set_now (t : Time) (e : Env) : Env :=
  mk_env (is_shutdown e) (is_new_goal_available e) (is_preempt_requested e)
         (server_status e) (published e) t.

(** Modelled from the spec: the goal transport (actionlib's
    [SimpleActionServer]) and [rospy] are not part of the sources.  A
    cancellation of the active goal marks a preemption as requested and
    invokes the preemption callback; a superseding goal does the same and
    is also made available as the new goal; a pose message invokes
    [onOdometry]; shutdown raises the shutdown flag. *)
Definition deliver (ev : Event) (x : World) : World :=
  match ev with
  | EvOdometry msg => onOdometry msg x
  | EvCancel => preempt_cb (mk_world (self x) (request_preempt false (env x)))
  | EvNewGoal => preempt_cb (mk_world (self x) (request_preempt true (env x)))
  | EvShutdown => mk_world (self x) (shut_down (env x))
  | EvClock t => mk_world (self x) (set_now t (env x))
  end.

Definition deliver_all (evs : list Event) (x : World) : World :=
  fold_left (fun acc ev => deliver ev acc) evs x.

(** How a run of [execute] stands: it has returned an outcome, it is still
    in its loop, or it has raised. *)
Inductive Exec : Type :=
| Returned (x : World) (o : Outcome)
| Running (x : World)
| Raised.

(** The [while] loop and the return statement, for the runs in which
    events arrive between two passes.  The schedule lists, for each test of
    the loop condition in turn, the events that arrived since the previous
    one (during the sleep), clock readings among them; the loop is followed
    for as many iterations as the schedule is long.  Events that arrive in
    the middle of a pass are followed by [run_threads]. *)
Fixpoint execute_loop (sched : list (list Event)) (x : World) : Exec :=
  match sched with
  | [] => Running x
  | evs :: rest =>
      let x1 := deliver_all evs x in
      if is_shutdown (env x1) then Returned x1 (execute_return (env x1))
      else
        match loop_body x1 with
        | None => Raised
        | Some (x2, true) => Returned x2 (execute_return (env x2))
        | Some (x2, false) => execute_loop rest x2
        end
  end.

(** [execute]: store the goal in [self.destination], then loop. *)
Definition execute (goal : positionGoal) (sched : list (list Event))
    (x : World) : Exec :=
  let d := mk_vector (goal_x goal) (goal_y goal) in
  execute_loop sched (mk_world (set_destination d (self x)) (env x)).

(** ** The two threads, statement group by statement group *)

(** Where the loop thread stands: at the test of the [while] (line 88);
    after the raw errors were written to the twist (line 115), before the
    limits; after the limits (line 125), before the test of line 128; after
    that test let it through, before lines 129-130; or returned. *)
Inductive LoopPc : Type :=
| LTest
| LLimit
| LGuard
| LPublish
| LReturned (o : Outcome).

(** Where the preemption callback stands: not running; called, before
    line 76; after lines 76-78, before the publication of line 79; after
    line 79, before [set_preempted] (line 81). *)
Inductive CallbackPc : Type :=
| CIdle
| CEntered
| CZeroed
| CPublished.

Record Threads : Type := mk_threads {
  world : World;
  loop_pc : LoopPc;
  callback_pc : CallbackPc
}.

(** The next statement group of the loop thread.  Lines 118-125 and line
    130 read the twist as it is then, whoever wrote it last.  [None]: an
    exception, or a thread that has returned. *)
Definition loop_step (x : World) (pc : LoopPc) : option (World * LoopPc) :=
  match pc with
  | LTest =>
      if is_shutdown (env x) then
        Some (x, LReturned (execute_return (env x)))
      else if is_new_goal_available (env x) then
        Some (x, LReturned (execute_return (env x)))
      else
        let path := vector_sub (destination (self x)) (position (self x)) in
        let s1 := set_distance_error (vector_length path) (self x) in
        if Rgt_dec (distance_error s1) (max_distance_error s1) then
          match signed_angle (heading (quaternion s1)) path with
          | None => None
          | Some a =>
              let s2 := set_angle_error a s1 in
              let t := mk_twist (stamp (twist s2))
                                (distance_error s2) (angle_error s2) in
              Some (mk_world (set_twist t s2) (env x), LLimit)
          end
        else
          let t := mk_twist (now (env x)) 0 (Num 0) in
          let x' := mk_world (set_twist t s1)
                             (publish t (set_status succeeded (env x))) in
          Some (x', LReturned (execute_return (env x')))
  | LLimit =>
      let s := self x in
      let t := mk_twist (stamp (twist s))
                 (limit_linear (max_linear_velocity s) (linear_x (twist s)))
                 (limit_angular (max_angular_velocity s) (angular_z (twist s))) in
      Some (mk_world (set_twist t s) (env x), LGuard)
  | LGuard =>
      if is_preempt_requested (env x) then Some (x, LTest)
      else Some (x, LPublish)
  | LPublish =>
      let t := mk_twist (now (env x)) (linear_x (twist (self x)))
                        (angular_z (twist (self x))) in
      Some (mk_world (set_twist t (self x)) (publish t (env x)), LTest)
  | LReturned _ => None
  end.

(** The next statement group of [preempt_cb]. *)
Definition callback_step (x : World) (pc : CallbackPc)
    : option (World * CallbackPc) :=
  match pc with
  | CIdle => None
  | CEntered =>
      let t := mk_twist (now (env x)) 0 (Num 0) in
      Some (mk_world (set_twist t (self x)) (env x), CZeroed)
  | CZeroed =>
      Some (mk_world (self x) (publish (twist (self x)) (env x)), CPublished)
  | CPublished =>
      Some (mk_world (self x) (set_status preempted (env x)), CIdle)
  end.

(** What can happen next: a step of the loop thread, a step of the
    callback, or the arrival of an event. *)
Inductive Action : Type :=
| ALoop
| ACallback
| AArrive (ev : Event).

(** Modelled from the spec: on a cancellation or a superseding goal the
    goal transport raises its flags and calls the preemption callback,
    which then runs beside the loop; one callback runs at a time.  The
    other events take effect at once. *)
Definition arrive (ev : Event) (st : Threads) : option Threads :=
  let x := world st in
  match ev with
  | EvCancel | EvNewGoal =>
      match callback_pc st with
      | CIdle =>
          let new_goal := match ev with EvNewGoal => true | _ => false end in
          Some (mk_threads
                  (mk_world (self x) (request_preempt new_goal (env x)))
                  (loop_pc st) CEntered)
      | _ => None
      end
  | _ => Some (mk_threads (deliver ev x) (loop_pc st) (callback_pc st))
  end.

Definition thread_step (a : Action) (st : Threads) : option Threads :=
  match a with
  | ALoop =>
      match loop_step (world st) (loop_pc st) with
      | Some (x', pc') => Some (mk_threads x' pc' (callback_pc st))
      | None => None
      end
  | ACallback =>
      match callback_step (world st) (callback_pc st) with
      | Some (x', pc') => Some (mk_threads x' (loop_pc st) pc')
      | None => None
      end
  | AArrive ev => arrive ev st
  end.

Fixpoint run_threads (acts : list Action) (st : Threads) : option Threads :=
  match acts with
  | [] => Some st
  | a :: rest =>
      match thread_step a st with
      | Some st' => run_threads rest st'
      | None => None
      end
  end.

(** [execute] about to test its loop for the first time, no callback
    running. *)
Definition idle (x : World) : Threads := mk_threads x LTest CIdle.

(** ** Vocabulary of the properties *)

(** What [angle] returns: a value in [[0, PI]], or [nan]. *)
Definition is_angle (v : pyfloat) : Prop :=
  v = NaN \/ exists r, v = Num r /\ 0 <= r <= PI.

(** [clamp x lo hi]: [x] brought into the interval between [lo] and [hi];
    on a float that is not a number it has nothing to bring in. *)
Definition clamp (x lo hi : R) : R := Rmax lo (Rmin x hi).

Definition py_clamp (a : pyfloat) (lo hi : R) : pyfloat :=
  match a with
  | Num r => Num (clamp r lo hi)
  | Inf true => Num (clamp hi lo hi)
  | Inf false => Num (clamp lo lo hi)
  | NaN => NaN
  end.

(** The path vector of line 94 and the distance to the goal. *)
Definition path_of (x : World) : vector :=
  vector_sub (destination (self x)) (position (self x)).

(** The twist the loop computes on a pass through the motion branch, with
    signed angle [a], and the world that pass leaves behind. *)
Definition motion_twist (x : World) (a : pyfloat) : TwistStamped :=
  mk_twist
    (if is_preempt_requested (env x) then stamp (twist (self x))
     else now (env x))
    (limit_linear (max_linear_velocity (self x)) (vector_length (path_of x)))
    (limit_angular (max_angular_velocity (self x)) a).

Definition after_motion (x : World) (a : pyfloat) : World :=
  mk_world
    (set_twist (motion_twist x a)
       (set_angle_error a
          (set_distance_error (vector_length (path_of x)) (self x))))
    (if is_preempt_requested (env x) then env x
     else publish (motion_twist x a) (env x)).

(** The world a pass through the goal-reached branch leaves behind. *)
Definition after_reached (x : World) : World :=
  let t := mk_twist (now (env x)) 0 (Num 0) in
  mk_world
    (set_twist t (set_distance_error (vector_length (path_of x)) (self x)))
    (publish t (set_status succeeded (env x))).

(** A robot at the origin heading along (1, 0), with the given limits,
    tolerance and destination, nothing published and no flag raised, at
    clock reading [t]. *)
Definition start_world (max_lin max_ang max_dist : R) (dest : vector)
    (t : Time) : World :=
  mk_world
    (set_destination dest
       (set_quaternion (mk_quaternion 0 0 0 1) (init max_lin max_ang max_dist)))
    (mk_env false false false [] [] t).

(** The angle of lines 100-101, of which [heading] takes cosine and sine. *)
Definition roll (q : quaternion4) : R :=
  math_atan2 (2 * (quat0 q * quat1 q + quat2 q * quat3 q))
             (1 - 2 * (math_pow2 (quat1 q) + math_pow2 (quat2 q))).

(** The unit quaternion of a rotation by [psi] about the vertical axis. *)
Definition yaw_quaternion (psi : R) : quaternion4 :=
  mk_quaternion 0 0 (sin (psi / 2)) (cos (psi / 2)).


(** Two states of the object with the same parameters and destination. *)
Definition same_config (s s' : positionGoalActionServer) : Prop :=
  max_linear_velocity s' = max_linear_velocity s /\
  max_angular_velocity s' = max_angular_velocity s /\
  max_distance_error s' = max_distance_error s /\
  destination s' = destination s.

(** A division that lands one unit in the last place of 1 away from the
    exact quotient, away from zero. *)
Definition fl_div_ulp (x y : R) : pyfloat := Num (x / y * (1 + / 2 ^ 52)).

(** The world after lines 94-115 of a pass through the motion branch with
    signed angle [a]: the errors are stored and copied, not yet limited,
    into the twist. *)
Definition raw_motion (x : World) (a : pyfloat) : World :=
  mk_world
    (set_twist
       (mk_twist (stamp (twist (self x))) (vector_length (path_of x)) a)
       (set_angle_error a
          (set_distance_error (vector_length (path_of x)) (self x))))
    (env x).

(** The world a run of [execute] has reached, unless it raised. *)
Definition exec_world (r : Exec) : option World :=
  match r with
  | Returned x _ => Some x
  | Running x => Some x
  | Raised => None
  end.

(** * Properties *)

(** Split on every comparison of reals the goal branches on. *)
Ltac case_Rdec :=
  repeat (cbv zeta;
    match goal with
    | |- context [Rgt_dec ?u ?v] => destruct (Rgt_dec u v)
    | |- context [Rlt_dec ?u ?v] => destruct (Rlt_dec u v)
    | |- context [Rle_dec ?u ?v] => destruct (Rle_dec u v)
    | |- context [Req_dec_T ?u ?v] => destruct (Req_dec_T u v)
    | H : context [Rlt_dec ?u ?v] |- _ => destruct (Rlt_dec u v)
    | H : context [Rle_dec ?u ?v] |- _ => destruct (Rle_dec u v)
    end).

(** ** Geometry *)


Lemma np_dot_self_nonneg (a : vector) : 0 <= np_dot a a.
Proof.
  unfold np_dot.
  pose proof (Rle_0_sqr (vec0 a)) as H0.
  pose proof (Rle_0_sqr (vec1 a)) as H1.
  unfold Rsqr in *; lra.
Qed.

Lemma vector_length_nonneg (a : vector) : 0 <= vector_length a.
Proof. unfold vector_length; apply sqrt_pos. Qed.

Lemma vector_length_zero : vector_length (mk_vector 0 0) = 0.
Proof.
  unfold vector_length, np_dot; simpl.
  replace (0 * 0 + 0 * 0) with 0 by ring.
  apply sqrt_0.
Qed.

(** The length of an axis-aligned vector is the absolute value of its
    coordinate. *)
Lemma vector_length_axis0 (c : R) : 0 <= c -> vector_length (mk_vector c 0) = c.
Proof.
  intros Hc; unfold vector_length, np_dot; simpl.
  replace (c * c + 0 * 0) with (c * c) by ring.
  now apply sqrt_square.
Qed.

Lemma vector_length_axis1 (c : R) : vector_length (mk_vector 0 c) = Rabs c.
Proof.
  unfold vector_length, np_dot; simpl.
  replace (0 * 0 + c * c) with (Rsqr c) by (unfold Rsqr; ring).
  apply sqrt_Rsqr_abs.
Qed.

(** [math.acos] accepts the two boundary values. *)
Lemma math_acos_1 : math_acos (Num 1) = Some (Num 0).
Proof.
  unfold math_acos.
  destruct (Rle_dec (-1) 1) as [_ | H]; [| exfalso; lra].
  destruct (Rle_dec 1 1) as [_ | H]; [| exfalso; lra].
  now rewrite acos_1.
Qed.

Lemma math_acos_m1 : math_acos (Num (-1)) = Some (Num PI).
Proof.
  unfold math_acos.
  destruct (Rle_dec (-1) (-1)) as [_ | H]; [| exfalso; lra].
  destruct (Rle_dec (-1) 1) as [_ | H]; [| exfalso; lra].
  unfold acos.
  destruct (Rle_dec (-1) (-1)) as [_ | H]; [reflexivity | exfalso; lra].
Qed.

Lemma math_acos_in_range (r : R) :
  -1 <= r <= 1 -> math_acos (Num r) = Some (Num (acos r)).
Proof.
  intros [Hlo Hhi]; unfold math_acos.
  destruct (Rle_dec (-1) r) as [_ | H]; [| contradiction].
  destruct (Rle_dec r 1) as [_ | H]; [reflexivity | contradiction].
Qed.

(** The branch of [angle] on a finite quotient. *)
Lemma clamped_acos_num (q : R) :
  clamped_acos (Num q) =
  Some (Num (if Rgt_dec q 1 then 0
             else if Rlt_dec q (-1) then PI else acos q)).
Proof.
  unfold clamped_acos; simpl.
  destruct (Rgt_dec q 1) as [Hgt | Hgt]; [apply math_acos_1 |].
  destruct (Rlt_dec q (-1)) as [Hlt | Hlt]; [apply math_acos_m1 |].
  apply math_acos_in_range; lra.
Qed.

Lemma clamped_acos_num_bound (q : R) :
  exists r, clamped_acos (Num q) = Some (Num r) /\ 0 <= r <= PI.
Proof.
  rewrite clamped_acos_num; eexists; split; [reflexivity |].
  pose proof PI_RGT_0.
  destruct (Rgt_dec q 1); [lra |].
  destruct (Rlt_dec q (-1)); [lra | apply acos_bound].
Qed.

Lemma clamped_acos_total (tmp : pyfloat) :
  exists v, clamped_acos tmp = Some v /\ is_angle v.
Proof.
  destruct tmp as [q | [|] |].
  - destruct (clamped_acos_num_bound q) as [r [Hr Hb]].
    exists (Num r); split; [exact Hr | right; now exists r].
  - exists (Num 0); split; [apply math_acos_1 |].
    right; exists 0; split; [reflexivity | pose proof PI_RGT_0; lra].
  - exists (Num PI); split.
    + unfold clamped_acos; simpl.
      destruct (Rlt_dec 0 (-1)); apply math_acos_m1.
    + right; exists PI; split; [reflexivity | pose proof PI_RGT_0; lra].
  - exists NaN; split; [reflexivity | now left].
Qed.

Lemma vector_angle_total (a b : vector) :
  exists v, vector_angle a b = Some v /\ is_angle v.
Proof. unfold vector_angle, vector_angle_fl; apply clamped_acos_total. Qed.


Lemma vector_angle_nonzero (a b : vector) :
  vector_length a <> 0 -> vector_length b <> 0 ->
  vector_angle a b =
  clamped_acos (Num (np_dot a b / (vector_length a * vector_length b))).
Proof.
  intros Ha Hb; unfold vector_angle, vector_angle_fl, np_divide.
  destruct (Req_dec_T (vector_length a * vector_length b) 0) as [H0 | H0];
    [| reflexivity].
  apply Rmult_integral in H0; tauto.
Qed.




(** ** Sign resolution *)


Lemma vector_length_polar (rho h : R) :
  0 <= rho -> vector_length (mk_vector (rho * cos h) (rho * sin h)) = rho.
Proof.
  intros Hrho; unfold vector_length, np_dot; simpl.
  replace (rho * cos h * (rho * cos h) + rho * sin h * (rho * sin h))
    with (rho * rho * (Rsqr (sin h) + Rsqr (cos h))) by (unfold Rsqr; ring).
  rewrite sin2_cos2, Rmult_1_r.
  now apply sqrt_square.
Qed.

Lemma vector_rotate_unit (h a : R) :
  vector_rotate (mk_vector (cos h) (sin h)) a =
  mk_vector (cos (h + a)) (sin (h + a)).
Proof.
  unfold vector_rotate; simpl.
  rewrite cos_plus, sin_plus; f_equal; ring.
Qed.

Lemma np_dot_polar (r1 r2 h1 h2 : R) :
  np_dot (mk_vector (r1 * cos h1) (r1 * sin h1))
         (mk_vector (r2 * cos h2) (r2 * sin h2)) =
  r1 * r2 * cos (h1 - h2).
Proof. unfold np_dot; simpl; rewrite cos_minus; ring. Qed.

(** The angle between two vectors given in polar form. *)
Lemma vector_angle_polar (r1 r2 h1 h2 : R) :
  0 < r1 -> 0 < r2 ->
  vector_angle (mk_vector (r1 * cos h1) (r1 * sin h1))
               (mk_vector (r2 * cos h2) (r2 * sin h2)) =
  Some (Num (acos (cos (h1 - h2)))).
Proof.
  intros H1 H2.
  rewrite vector_angle_nonzero;
    rewrite ?vector_length_polar; try lra.
  rewrite np_dot_polar.
  replace (r1 * r2 * cos (h1 - h2) / (r1 * r2)) with (cos (h1 - h2))
    by (field; lra).
  rewrite clamped_acos_num.
  pose proof (COS_bound (h1 - h2)) as [Hlo Hhi].
  destruct (Rgt_dec (cos (h1 - h2)) 1) as [H | _]; [exfalso; lra |].
  destruct (Rlt_dec (cos (h1 - h2)) (-1)) as [H | _]; [exfalso; lra |].
  reflexivity.
Qed.

Lemma unit_as_polar (h : R) :
  mk_vector (cos h) (sin h) = mk_vector (1 * cos h) (1 * sin h).
Proof. now rewrite !Rmult_1_l. Qed.

Lemma acos_cos_abs (t : R) : - PI <= t <= PI -> acos (cos t) = Rabs t.
Proof.
  intros [Hlo Hhi].
  destruct (Rle_dec 0 t) as [Ht | Ht].
  - rewrite Rabs_right by lra. apply acos_cos; lra.
  - rewrite Rabs_left by lra. rewrite <- cos_neg. apply acos_cos; lra.
Qed.

Lemma acos_zero_inv (c : R) : -1 <= c <= 1 -> acos c = 0 -> c = 1.
Proof.
  intros Hc H0.
  rewrite <- (cos_acos c Hc), H0; apply cos_0.
Qed.

(** In exact arithmetic the signed angle is the angle from the heading to
    the path, counted counter-clockwise, in the range from -PI (excluded)
    to PI. *)
Lemma signed_angle_polar (h rho theta : R) :
  0 < rho -> - PI < theta <= PI ->
  signed_angle (mk_vector (cos h) (sin h))
               (mk_vector (rho * cos (h + theta)) (rho * sin (h + theta))) =
  Some (Num theta).
Proof.
  intros Hrho [Hlo Hhi].
  unfold signed_angle.
  rewrite (unit_as_polar h) at 1.
  rewrite vector_angle_polar by lra.
  replace (h - (h + theta)) with (- theta) by ring.
  rewrite cos_neg, acos_cos_abs by lra.
  unfold resolve_sign.
  rewrite vector_rotate_unit, (unit_as_polar (h + Rabs theta)).
  rewrite vector_angle_polar by lra.
  replace (h + theta - (h + Rabs theta)) with (theta - Rabs theta) by ring.
  destruct (Rle_dec 0 theta) as [Ht | Ht].
  - rewrite Rabs_right by lra.
    replace (theta - theta) with 0 by ring.
    rewrite cos_0, acos_1; simpl.
    destruct (Req_dec_T 0 0) as [_ | H]; [reflexivity | now elim H].
  - rewrite Rabs_left by lra; simpl.
    destruct (Req_dec_T (acos (cos (theta - - theta))) 0) as [H0 | _].
    + exfalso.
      apply acos_zero_inv in H0; [| apply COS_bound].
      replace (theta - - theta) with (2 * theta) in H0 by ring.
      rewrite cos_2a_sin in H0.
      assert (Hs : sin theta < 0) by (apply sin_lt_0_var; lra).
      nra.
    + now rewrite Ropp_involutive.
Qed.

(** ** The loop body *)

Lemma resolve_sign_total (head path : vector) (a0 : pyfloat) :
  is_angle a0 ->
  exists a, resolve_sign head path a0 = Some a /\
            (a = NaN \/ exists r, a = Num r /\ - PI <= r <= PI).
Proof.
  intros [-> | [r [-> Hr]]].
  - exists NaN; split; [reflexivity | now left].
  - simpl.
    destruct (vector_angle_total path (vector_rotate head r)) as [d [-> _]].
    destruct (py_ne d 0).
    + exists (Num (- r)); split; [reflexivity |].
      right; exists (- r); split; [reflexivity | lra].
    + exists (Num r); split; [reflexivity |].
      right; exists r; split; [reflexivity | lra].
Qed.

Lemma signed_angle_total (head path : vector) :
  exists a, signed_angle head path = Some a /\
            (a = NaN \/ exists r, a = Num r /\ - PI <= r <= PI).
Proof.
  unfold signed_angle.
  destruct (vector_angle_total head path) as [a0 [-> Ha0]].
  now apply resolve_sign_total.
Qed.

(** The three ways through the loop body. *)
Lemma loop_body_new_goal (x : World) :
  is_new_goal_available (env x) = true -> loop_body x = Some (x, true).
Proof. intros H; unfold loop_body; now rewrite H. Qed.

Lemma loop_body_reached (x : World) :
  is_new_goal_available (env x) = false ->
  vector_length (path_of x) <= max_distance_error (self x) ->
  loop_body x = Some (after_reached x, true).
Proof.
  intros Hng Hd; unfold loop_body; rewrite Hng; simpl.
  fold (path_of x).
  destruct (Rgt_dec (vector_length (path_of x)) (max_distance_error (self x)))
    as [Hgt | _]; [exfalso; lra | reflexivity].
Qed.

Lemma loop_body_motion (x : World) :
  is_new_goal_available (env x) = false ->
  vector_length (path_of x) > max_distance_error (self x) ->
  exists a,
    signed_angle (heading (quaternion (self x))) (path_of x) = Some a /\
    loop_body x = Some (after_motion x a, false).
Proof.
  intros Hng Hd; unfold loop_body; rewrite Hng; simpl.
  fold (path_of x).
  destruct (Rgt_dec (vector_length (path_of x)) (max_distance_error (self x)))
    as [_ | Hgt]; [| contradiction].
  destruct (signed_angle_total (heading (quaternion (self x))) (path_of x))
    as [a [Ha _]].
  exists a; split; [exact Ha |].
  rewrite Ha; unfold after_motion, motion_twist; simpl.
  now destruct (is_preempt_requested (env x)).
Qed.

(** The loop body never raises. *)
Lemma loop_body_total (x : World) :
  exists x' b, loop_body x = Some (x', b).
Proof.
  destruct (is_new_goal_available (env x)) eqn:Hng.
  - exists x, true; now apply loop_body_new_goal.
  - destruct (Rle_dec (vector_length (path_of x)) (max_distance_error (self x)))
      as [Hd | Hd].
    + exists (after_reached x), true; now apply loop_body_reached.
    + destruct (loop_body_motion x Hng) as [a [_ Ha]]; [lra |].
      now exists (after_motion x a), false.
Qed.

(** A pass that does not end in [break] went through the motion branch. *)
Lemma loop_body_continue_inv (x x' : World) :
  loop_body x = Some (x', false) ->
  is_new_goal_available (env x) = false /\
  vector_length (path_of x) > max_distance_error (self x) /\
  exists a,
    signed_angle (heading (quaternion (self x))) (path_of x) = Some a /\
    x' = after_motion x a.
Proof.
  intros H.
  destruct (is_new_goal_available (env x)) eqn:Hng.
  - rewrite (loop_body_new_goal x Hng) in H; discriminate H.
  - destruct (Rle_dec (vector_length (path_of x)) (max_distance_error (self x)))
      as [Hd | Hd].
    + rewrite (loop_body_reached x Hng Hd) in H; discriminate H.
    + assert (Hgt : vector_length (path_of x) > max_distance_error (self x))
        by lra.
      destruct (loop_body_motion x Hng Hgt) as [a [Ha Hb]].
      rewrite Hb in H; injection H as <-.
      repeat split; trivial. now exists a.
Qed.

(** A pass that ends in [break] saw a new goal or reached the goal. *)
Lemma loop_body_break_inv (x x' : World) :
  loop_body x = Some (x', true) ->
  (is_new_goal_available (env x) = true /\ x' = x) \/
  (is_new_goal_available (env x) = false /\
   vector_length (path_of x) <= max_distance_error (self x) /\
   x' = after_reached x).
Proof.
  intros H.
  destruct (is_new_goal_available (env x)) eqn:Hng.
  - rewrite (loop_body_new_goal x Hng) in H; injection H as <-; now left.
  - destruct (Rle_dec (vector_length (path_of x)) (max_distance_error (self x)))
      as [Hd | Hd].
    + rewrite (loop_body_reached x Hng Hd) in H; injection H as <-.
      right; now repeat split.
    + assert (Hgt : vector_length (path_of x) > max_distance_error (self x))
        by lra.
      destruct (loop_body_motion x Hng Hgt) as [a [_ Hb]].
      rewrite Hb in H; discriminate H.
Qed.

Lemma heading_identity : heading (mk_quaternion 0 0 0 1) = mk_vector 1 0.
Proof.
  unfold heading, math_pow2; simpl.
  replace (2 * (0 * 0 + 0 * 1)) with 0 by ring.
  replace (1 - 2 * (0 * (0 * 1) + 0 * (0 * 1))) with 1 by ring.
  unfold math_atan2.
  destruct (Rlt_dec 0 1) as [_ | H]; [| exfalso; lra].
  replace (0 / 1) with 0 by field.
  now rewrite atan_0, cos_0, sin_0.
Qed.

(** The signed angle when the robot heads along (1, 0). *)
Lemma signed_angle_east (rho theta : R) :
  0 < rho -> - PI < theta <= PI ->
  signed_angle (mk_vector 1 0)
               (mk_vector (rho * cos theta) (rho * sin theta)) =
  Some (Num theta).
Proof.
  intros Hrho Ht.
  pose proof (signed_angle_polar 0 rho theta Hrho Ht) as H.
  now rewrite cos_0, sin_0, Rplus_0_l in H.
Qed.

Lemma signed_angle_east_left :
  signed_angle (mk_vector 1 0) (mk_vector 0 1) = Some (Num (PI / 2)).
Proof.
  pose proof PI_RGT_0 as Hpi.
  assert (H : - PI < PI / 2 <= PI) by lra.
  pose proof (signed_angle_east 1 (PI / 2) Rlt_0_1 H) as E.
  now rewrite cos_PI2, sin_PI2, Rmult_0_r, Rmult_1_r in E.
Qed.

Lemma signed_angle_east_right :
  signed_angle (mk_vector 1 0) (mk_vector 0 (-1)) = Some (Num (- (PI / 2))).
Proof.
  pose proof PI_RGT_0 as Hpi.
  assert (H : - PI < - (PI / 2) <= PI) by lra.
  pose proof (signed_angle_east 1 (- (PI / 2)) Rlt_0_1 H) as E.
  rewrite cos_neg, sin_neg, cos_PI2, sin_PI2, Rmult_0_r, Rmult_1_l in E.
  exact E.
Qed.

(** C1: with the robot heading along (1, 0), a path of (0, 1) gives an
    angle error of PI/2 and a path of (0, -1) gives -PI/2; the sign comes
    from rotating the heading by the unsigned angle, and it is flipped
    exactly when the angle between the path and the rotated heading is not
    zero. *)
Theorem sign_resolution :
  heading (mk_quaternion 0 0 0 1) = mk_vector 1 0 /\
  (forall x,
      heading (quaternion (self x)) = mk_vector 1 0 ->
      is_new_goal_available (env x) = false ->
      max_distance_error (self x) < 1 ->
      (path_of x = mk_vector 0 1 ->
       exists x', loop_body x = Some (x', false) /\
                  angle_error (self x') = Num (PI / 2)) /\
      (path_of x = mk_vector 0 (-1) ->
       exists x', loop_body x = Some (x', false) /\
                  angle_error (self x') = Num (- (PI / 2)))) /\
  (forall head path a d,
      vector_angle path (vector_rotate head a) = Some d ->
      (d <> Num 0 -> resolve_sign head path (Num a) = Some (Num (- a))) /\
      (d = Num 0 -> resolve_sign head path (Num a) = Some (Num a))).
Proof.
  split; [apply heading_identity |].
  split.
  - intros x Hh Hng Htol; split; intros Hp.
    + destruct (loop_body_motion x Hng) as [a [Ha Hb]].
      { rewrite Hp, vector_length_axis1, Rabs_right; lra. }
      rewrite Hh, Hp, signed_angle_east_left in Ha; injection Ha as <-.
      now exists (after_motion x (Num (PI / 2))).
    + destruct (loop_body_motion x Hng) as [a [Ha Hb]].
      { rewrite Hp, vector_length_axis1, Rabs_left; lra. }
      rewrite Hh, Hp, signed_angle_east_right in Ha; injection Ha as <-.
      now exists (after_motion x (Num (- (PI / 2)))).
  - intros head path a d Hd; simpl; rewrite Hd; split.
    + intros Hne.
      destruct d as [r | p |]; simpl; try reflexivity.
      destruct (Req_dec_T r 0) as [-> | _]; [now elim Hne | reflexivity].
    + intros ->; simpl.
      destruct (Req_dec_T 0 0) as [_ | H]; [reflexivity | now elim H].
Qed.

Lemma sign_resolution_witness :
  (exists x', loop_body (start_world 2 1 (1 / 10) (mk_vector 0 1) 0)
              = Some (x', false) /\
              angle_error (self x') = Num (PI / 2)) /\
  (exists x', loop_body (start_world 2 1 (1 / 10) (mk_vector 0 (-1)) 0)
              = Some (x', false) /\
              angle_error (self x') = Num (- (PI / 2))).
Proof.
  destruct sign_resolution as [Hh [Hx _]].
  split.
  - apply (Hx (start_world 2 1 (1 / 10) (mk_vector 0 1) 0));
      [exact Hh | reflexivity | simpl; lra |].
    unfold path_of, vector_sub; simpl; f_equal; ring.
  - apply (Hx (start_world 2 1 (1 / 10) (mk_vector 0 (-1)) 0));
      [exact Hh | reflexivity | simpl; lra |].
    unfold path_of, vector_sub; simpl; f_equal; ring.
Defined.

(** ** Velocity limits *)

Lemma limit_linear_clamp (m d : R) : limit_linear m d = clamp d (- m) m.
Proof. unfold limit_linear, clamp, Rmax, Rmin; case_Rdec; lra. Qed.

Lemma limit_angular_clamp (m : R) (a : pyfloat) :
  limit_angular m a = py_clamp a (- m) m.
Proof.
  destruct a as [r | [|] |];
    unfold limit_angular, py_clamp, clamp, Rmax, Rmin; simpl;
    case_Rdec; simpl; case_Rdec; try reflexivity; f_equal; lra.
Qed.

Lemma limit_linear_2_5 : limit_linear 2 5 = 2.
Proof. unfold limit_linear; case_Rdec; lra. Qed.

Lemma limit_angular_1_m3 : limit_angular 1 (Num (-3)) = Num (-1).
Proof.
  unfold limit_angular; simpl; case_Rdec; simpl; case_Rdec;
    f_equal; lra.
Qed.

(** C4: the command the motion branch builds, and publishes when no
    preemption is requested, has the distance error clamped to the linear
    limit and the angle error clamped to the angular limit; with a linear
    limit of 2 a distance error of 5 gives exactly 2, and with an angular
    limit of 1 an angle error of -3 gives exactly -1. *)
Theorem commands_are_clamped (x x' : World) :
  loop_body x = Some (x', false) ->
  linear_x (twist (self x')) =
    clamp (distance_error (self x'))
          (- max_linear_velocity (self x')) (max_linear_velocity (self x')) /\
  angular_z (twist (self x')) =
    py_clamp (angle_error (self x'))
             (- max_angular_velocity (self x')) (max_angular_velocity (self x')) /\
  (is_preempt_requested (env x) = false ->
   published (env x') = twist (self x') :: published (env x)) /\
  (max_linear_velocity (self x) = 2 -> distance_error (self x') = 5 ->
   linear_x (twist (self x')) = 2) /\
  (max_angular_velocity (self x) = 1 -> angle_error (self x') = Num (-3) ->
   angular_z (twist (self x')) = Num (-1)).
Proof.
  intros H.
  destruct (loop_body_continue_inv x x' H) as [_ [_ [a [_ ->]]]].
  unfold after_motion, motion_twist; simpl.
  repeat split.
  - apply limit_linear_clamp.
  - apply limit_angular_clamp.
  - intros ->; reflexivity.
  - intros -> ->; apply limit_linear_2_5.
  - intros -> ->; apply limit_angular_1_m3.
Qed.

Lemma commands_are_clamped_witness :
  exists x',
    loop_body (start_world 2 1 (1 / 10)
                 (mk_vector (5 * cos (-3)) (5 * sin (-3))) 7)
    = Some (x', false) /\
    twist (self x') = mk_twist 7%nat 2 (Num (-1)) /\
    published (env x') = [mk_twist 7%nat 2 (Num (-1))].
Proof.
  set (x := start_world 2 1 (1 / 10)
              (mk_vector (5 * cos (-3)) (5 * sin (-3))) 7).
  assert (Hp : path_of x = mk_vector (5 * cos (-3)) (5 * sin (-3))).
  { unfold path_of, vector_sub; simpl; f_equal; ring. }
  assert (Hl : vector_length (path_of x) = 5).
  { rewrite Hp; apply vector_length_polar; lra. }
  destruct (loop_body_motion x eq_refl) as [a [Ha Hb]].
  { rewrite Hl; simpl; lra. }
  assert (Hq : heading (quaternion (self x)) = mk_vector 1 0)
    by apply heading_identity.
  rewrite Hq, Hp, signed_angle_east in Ha;
    [| lra | pose proof PI2_3_2; lra].
  injection Ha as <-.
  destruct (commands_are_clamped x _ Hb) as [_ [_ [Hpub [Hlin Hang]]]].
  exists (after_motion x (Num (-3))).
  assert (Hst : stamp (twist (self (after_motion x (Num (-3))))) = 7%nat)
    by reflexivity.
  specialize (Hlin eq_refl Hl). specialize (Hang eq_refl eq_refl).
  specialize (Hpub eq_refl).
  destruct (twist (self (after_motion x (Num (-3))))) as [st l a].
  simpl in Hst, Hlin, Hang; subst st l a.
  split; [exact Hb |]. split; [reflexivity | exact Hpub].
Defined.

Lemma limit_linear_m1_5 : limit_linear (-1) 5 = 1.
Proof. unfold limit_linear; case_Rdec; lra. Qed.

(** The path from the origin to a destination on the positive first axis. *)
Lemma path_length_east (max_lin max_ang max_dist c : R) (t : Time) :
  0 <= c ->
  vector_length (path_of (start_world max_lin max_ang max_dist (mk_vector c 0) t))
  = c.
Proof.
  intros Hc; unfold path_of, vector_sub; simpl.
  rewrite !Rminus_0_r.
  now apply vector_length_axis0.
Qed.

(** C10, as stated, fails when the configured linear limit is negative:
    with [max_linear_velocity = -1] and a goal 5 away, the upper test
    replaces 5 by -1, the lower test replaces -1 by 1, and the published
    linear command 1 is outside [[0, -1]]. *)
Lemma negative_limit_escapes_interval :
  ~ (forall x x' t,
        loop_body x = Some (x', false) ->
        published (env x') = t :: published (env x) ->
        0 <= linear_x t <= max_linear_velocity (self x)).
Proof.
  intros H.
  set (x := start_world (-1) 1 (1 / 10) (mk_vector 5 0) 0).
  assert (Hl : vector_length (path_of x) = 5)
    by (apply path_length_east; lra).
  destruct (loop_body_motion x eq_refl) as [a [_ Hb]].
  { rewrite Hl; simpl; lra. }
  specialize (H x _ _ Hb eq_refl).
  assert (Hlin : linear_x (motion_twist x a) = 1).
  { unfold motion_twist; simpl linear_x.
    rewrite Hl; apply limit_linear_m1_5. }
  rewrite Hlin in H; simpl in H; lra.
Qed.

(** C10 (amended): when the configured linear limit is not negative, the
    linear component of every command of the motion branch is the length of
    the path vector cut at the limit, so it lies in
    [[0, max_linear_velocity]] and the lower test never fires. *)
Theorem linear_command_forward (x x' : World) :
  loop_body x = Some (x', false) ->
  0 <= max_linear_velocity (self x) ->
  0 <= linear_x (twist (self x')) <= max_linear_velocity (self x) /\
  linear_x (twist (self x')) =
    Rmin (vector_length (path_of x)) (max_linear_velocity (self x)) /\
  ~ Rmin (vector_length (path_of x)) (max_linear_velocity (self x))
    < - max_linear_velocity (self x) /\
  (is_preempt_requested (env x) = false ->
   published (env x') = twist (self x') :: published (env x)).
Proof.
  intros H Hmax.
  destruct (loop_body_continue_inv x x' H) as [_ [_ [a [_ ->]]]].
  unfold after_motion, motion_twist; simpl.
  pose proof (vector_length_nonneg (path_of x)) as Hd.
  set (d := vector_length (path_of x)) in *.
  set (m := max_linear_velocity (self x)) in *.
  assert (Hmin : 0 <= Rmin d m <= m).
  { unfold Rmin; destruct (Rle_dec d m); lra. }
  assert (Hlim : limit_linear m d = Rmin d m).
  { rewrite limit_linear_clamp; unfold clamp.
    apply Rmax_right; lra. }
  rewrite Hlim.
  repeat split; try lra.
  intros ->; reflexivity.
Qed.

Lemma linear_command_forward_witness :
  exists x',
    loop_body (start_world 2 1 (1 / 10) (mk_vector 5 0) 0) = Some (x', false) /\
    0 <= linear_x (twist (self x')) <= 2 /\
    published (env x') = [twist (self x')].
Proof.
  set (x := start_world 2 1 (1 / 10) (mk_vector 5 0) 0).
  assert (Hl : vector_length (path_of x) = 5)
    by (apply path_length_east; lra).
  destruct (loop_body_motion x eq_refl) as [a [_ Hb]].
  { rewrite Hl; simpl; lra. }
  exists (after_motion x a).
  destruct (linear_command_forward x _ Hb) as [Hr [_ [_ Hp]]];
    [simpl; lra |].
  split; [exact Hb |]. split; [exact Hr | exact (Hp eq_refl)].
Defined.

(** ** Callbacks *)

(** C9: [onOdometry] overwrites the cached position and quaternion with the
    values of the message and nothing else: the environment (so the list of
    published commands) and every other attribute stay as they were. *)
Theorem onOdometry_frame (msg : Odometry) (x : World) :
  let x' := onOdometry msg x in
  position (self x') = mk_vector (position_x msg) (position_y msg) /\
  quaternion (self x') =
    mk_quaternion (orientation_x msg) (orientation_y msg)
                  (orientation_z msg) (orientation_w msg) /\
  env x' = env x /\
  published (env x') = published (env x) /\
  destination (self x') = destination (self x) /\
  max_linear_velocity (self x') = max_linear_velocity (self x) /\
  max_angular_velocity (self x') = max_angular_velocity (self x) /\
  max_distance_error (self x') = max_distance_error (self x) /\
  twist (self x') = twist (self x) /\
  distance_error (self x') = distance_error (self x) /\
  angle_error (self x') = angle_error (self x) /\
  z (self x') = z (self x) /\
  w (self x') = w (self x).
Proof. repeat split. Qed.

Lemma preempt_cb_effect (x : World) :
  published (env (preempt_cb x)) =
    mk_twist (now (env x)) 0 (Num 0) :: published (env x) /\
  server_status (env (preempt_cb x)) = preempted :: server_status (env x) /\
  is_preempt_requested (env (preempt_cb x)) = is_preempt_requested (env x) /\
  is_new_goal_available (env (preempt_cb x)) = is_new_goal_available (env x) /\
  is_shutdown (env (preempt_cb x)) = is_shutdown (env x).
Proof. repeat split. Qed.

(** ** Events *)

(** No event withdraws a preemption request or a new goal. *)
Lemma deliver_keeps_preempt (ev : Event) (x : World) :
  is_preempt_requested (env x) = true ->
  is_preempt_requested (env (deliver ev x)) = true.
Proof. destruct ev; simpl; auto. Qed.

Lemma deliver_keeps_new_goal (ev : Event) (x : World) :
  is_new_goal_available (env x) = true ->
  is_new_goal_available (env (deliver ev x)) = true.
Proof.
  destruct ev; simpl; auto.
Qed.

Lemma deliver_all_keeps_preempt (evs : list Event) (x : World) :
  is_preempt_requested (env x) = true ->
  is_preempt_requested (env (deliver_all evs x)) = true.
Proof.
  revert x; induction evs as [| ev evs IH]; intros x H; simpl; [exact H |].
  apply IH; now apply deliver_keeps_preempt.
Qed.

Lemma deliver_all_keeps_new_goal (evs : list Event) (x : World) :
  is_new_goal_available (env x) = true ->
  is_new_goal_available (env (deliver_all evs x)) = true.
Proof.
  revert x; induction evs as [| ev evs IH]; intros x H; simpl; [exact H |].
  apply IH; now apply deliver_keeps_new_goal.
Qed.

Lemma deliver_all_new_goal (evs : list Event) (x : World) :
  In EvNewGoal evs ->
  is_new_goal_available (env (deliver_all evs x)) = true /\
  is_preempt_requested (env (deliver_all evs x)) = true.
Proof.
  revert x; induction evs as [| ev evs IH]; intros x Hin; [contradiction |].
  destruct Hin as [-> | Hin]; simpl.
  - split.
    + now apply deliver_all_keeps_new_goal.
    + now apply deliver_all_keeps_preempt.
  - now apply IH.
Qed.

(** ** Runs of execute *)

Lemma execute_loop_app (pre rest : list (list Event)) (x : World) :
  execute_loop (pre ++ rest) x =
  match execute_loop pre x with
  | Running x1 => execute_loop rest x1
  | r => r
  end.
Proof.
  revert x; induction pre as [| evs pre IH]; intros x; simpl; [reflexivity |].
  destruct (is_shutdown (env (deliver_all evs x))); [reflexivity |].
  destruct (loop_body (deliver_all evs x)) as [[x2 [|]] |]; auto.
Qed.

Lemma execute_loop_never_raises (sched : list (list Event)) (x : World) :
  execute_loop sched x <> Raised.
Proof.
  revert x; induction sched as [| evs sched IH]; intros x; simpl;
    [discriminate |].
  destruct (is_shutdown (env (deliver_all evs x))); [discriminate |].
  destruct (loop_body_total (deliver_all evs x)) as [x2 [b ->]].
  destruct b; [discriminate | apply IH].
Qed.

Lemma execute_loop_returned (sched : list (list Event)) (x x' : World)
    (o : Outcome) :
  execute_loop sched x = Returned x' o -> o = execute_return (env x').
Proof.
  revert x; induction sched as [| evs sched IH]; intros x; simpl;
    [discriminate |].
  destruct (is_shutdown (env (deliver_all evs x))).
  - intros H; injection H as <- <-; reflexivity.
  - destruct (loop_body (deliver_all evs x)) as [[x2 [|]] |].
    + intros H; injection H as <- <-; reflexivity.
    + apply IH.
    + discriminate.
Qed.

(** A pass that starts within the tolerance, without shutdown or new goal,
    ends the run. *)
Lemma execute_loop_reached (rest : list (list Event)) (x : World) :
  is_shutdown (env x) = false ->
  is_new_goal_available (env x) = false ->
  vector_length (path_of x) <= max_distance_error (self x) ->
  execute_loop ([] :: rest) x =
  Returned (after_reached x) (execute_return (env x)).
Proof.
  intros Hsd Hng Hd; simpl.
  now rewrite Hsd, (loop_body_reached x Hng Hd).
Qed.

(** C2: a run of [execute] never raises, and when it leaves the loop it
    returns one outcome, fixed by the flags at that moment: preempted when
    a preemption is requested, otherwise aborted under shutdown, otherwise
    succeeded. *)
Theorem outcome_priority (goal : positionGoal) (sched : list (list Event))
    (x : World) :
  execute goal sched x <> Raised /\
  forall x' o,
    execute goal sched x = Returned x' o ->
    (is_preempt_requested (env x') = true -> o = preempted) /\
    (is_preempt_requested (env x') = false -> is_shutdown (env x') = true ->
     o = aborted) /\
    (is_preempt_requested (env x') = false -> is_shutdown (env x') = false ->
     o = succeeded).
Proof.
  split; [apply execute_loop_never_raises |].
  intros x' o H; apply execute_loop_returned in H; subst o.
  unfold execute_return.
  repeat split; intros; repeat
    match goal with
    | E : _ = _ |- _ => rewrite E
    end; reflexivity.
Qed.

Lemma outcome_priority_witness :
  (exists x' o, execute (mk_goal 3 4) [[EvNewGoal]]
                  (start_world 2 1 (1 / 10) (mk_vector 0 0) 0)
                = Returned x' o /\ o = preempted) /\
  (exists x' o, execute (mk_goal 3 4) [[EvShutdown]]
                  (start_world 2 1 (1 / 10) (mk_vector 0 0) 0)
                = Returned x' o /\ o = aborted) /\
  (exists x' o, execute (mk_goal 0 0) [[]]
                  (start_world 2 1 (1 / 10) (mk_vector 0 0) 0)
                = Returned x' o /\ o = succeeded).
Proof.
  set (x := start_world 2 1 (1 / 10) (mk_vector 0 0) 0).
  repeat split.
  - eexists; eexists; split; [reflexivity |].
    eapply (proj2 (outcome_priority (mk_goal 3 4) [[EvNewGoal]] x));
      reflexivity.
  - eexists; eexists; split; [reflexivity |].
    eapply (proj2 (outcome_priority (mk_goal 3 4) [[EvShutdown]] x));
      reflexivity.
  - assert (E : execute (mk_goal 0 0) [[]] x =
                Returned (after_reached x) succeeded).
    { apply (execute_loop_reached [] x); try reflexivity.
      unfold x; rewrite path_length_east; simpl; lra. }
    exists (after_reached x), succeeded; split; [exact E |].
    eapply (proj2 (outcome_priority (mk_goal 0 0) [[]] x));
      [exact E | reflexivity | reflexivity].
Defined.

(** C3: when a new goal arrives while a run of [execute] is in its loop,
    the next test of the loop ends the run, nothing more is computed or
    published by the loop, and the outcome is preempted. *)
Theorem new_goal_preempts (goal : positionGoal)
    (pre post : list (list Event)) (evs : list Event) (x x1 : World) :
  execute goal pre x = Running x1 ->
  In EvNewGoal evs ->
  execute goal (pre ++ evs :: post) x =
  Returned (deliver_all evs x1) preempted.
Proof.
  unfold execute; intros Hrun Hin.
  rewrite execute_loop_app, Hrun; simpl.
  destruct (deliver_all_new_goal evs x1 Hin) as [Hng Hpre].
  destruct (is_shutdown (env (deliver_all evs x1))).
  - unfold execute_return; now rewrite Hpre.
  - rewrite (loop_body_new_goal _ Hng).
    unfold execute_return; now rewrite Hpre.
Qed.

Lemma new_goal_preempts_witness :
  execute (mk_goal 3 4) ([] ++ [EvNewGoal] :: [[]])
          (start_world 2 1 (1 / 10) (mk_vector 0 0) 0) =
  Returned (deliver_all [EvNewGoal] (start_world 2 1 (1 / 10) (mk_vector 3 4) 0))
           preempted.
Proof.
  apply (new_goal_preempts (mk_goal 3 4) [] [[]] [EvNewGoal]
           (start_world 2 1 (1 / 10) (mk_vector 0 0) 0)
           (start_world 2 1 (1 / 10) (mk_vector 3 4) 0)).
  - reflexivity.
  - simpl; now left.
Defined.

(** C5: a pass of the loop that starts with the distance to the goal within
    the tolerance calls [set_succeeded], publishes one command, which is
    zero, and ends the run; the run returns succeeded unless a preemption
    is requested.  (Position (0, 0), goal (0.05, 0), tolerance 0.1 is such
    a start.) *)
Theorem goal_reached (goal : positionGoal) (rest : list (list Event))
    (x : World) :
  is_shutdown (env x) = false ->
  is_new_goal_available (env x) = false ->
  vector_length
    (vector_sub (mk_vector (goal_x goal) (goal_y goal)) (position (self x)))
  <= max_distance_error (self x) ->
  exists x',
    execute goal ([] :: rest) x = Returned x' (execute_return (env x)) /\
    server_status (env x') = succeeded :: server_status (env x) /\
    published (env x') = mk_twist (now (env x)) 0 (Num 0) :: published (env x) /\
    zero_twist (twist (self x')) /\
    (is_preempt_requested (env x) = false ->
     execute_return (env x) = succeeded).
Proof.
  intros Hsd Hng Hd.
  set (x0 := mk_world
               (set_destination (mk_vector (goal_x goal) (goal_y goal)) (self x))
               (env x)).
  exists (after_reached x0); split.
  - unfold execute; fold x0.
    now rewrite (execute_loop_reached rest x0 Hsd Hng Hd).
  - repeat split.
    intros Hp; unfold execute_return; now rewrite Hp, Hsd.
Qed.

Lemma goal_reached_witness :
  exists x',
    execute (mk_goal (5 / 100) 0) [[]]
            (start_world 2 1 (1 / 10) (mk_vector 0 0) 3)
    = Returned x' succeeded /\
    server_status (env x') = [succeeded] /\
    published (env x') = [mk_twist 3%nat 0 (Num 0)].
Proof.
  destruct (goal_reached (mk_goal (5 / 100) 0) []
              (start_world 2 1 (1 / 10) (mk_vector 0 0) 3))
    as [x' [E [Hs [Hp _]]]];
    [reflexivity | reflexivity | |].
  - unfold vector_sub; simpl.
    rewrite !Rminus_0_r, vector_length_axis0; lra.
  - exists x'; repeat split; assumption.
Defined.

(** ** Preemption *)

Lemma deliver_after_preempt (ev : Event) (x : World) :
  exists zs,
    published (env (deliver ev x)) = zs ++ published (env x) /\
    Forall zero_twist zs.
Proof.
  destruct ev; simpl;
    try (exists []; split; [reflexivity | constructor]).
  - exists [mk_twist (now (env x)) 0 (Num 0)]; split; [reflexivity |].
    repeat constructor.
  - exists [mk_twist (now (env x)) 0 (Num 0)]; split; [reflexivity |].
    repeat constructor.
Qed.

Lemma deliver_all_after_preempt (evs : list Event) (x : World) :
  exists zs,
    published (env (deliver_all evs x)) = zs ++ published (env x) /\
    Forall zero_twist zs.
Proof.
  revert x; induction evs as [| ev evs IH]; intros x; simpl.
  - exists []; split; [reflexivity | constructor].
  - destruct (IH (deliver ev x)) as [zs1 [E1 F1]].
    destruct (deliver_after_preempt ev x) as [zs0 [E0 F0]].
    exists (zs1 ++ zs0); split.
    + now rewrite E1, E0, app_assoc.
    + apply Forall_app; now split.
Qed.

(** With a preemption requested, a pass through the loop body publishes
    nothing but possibly the zero command of the goal-reached branch, and
    leaves the request in place. *)
Lemma loop_body_after_preempt (x x' : World) (b : bool) :
  is_preempt_requested (env x) = true ->
  loop_body x = Some (x', b) ->
  is_preempt_requested (env x') = true /\
  exists zs,
    published (env x') = zs ++ published (env x) /\ Forall zero_twist zs.
Proof.
  intros Hp H; destruct b.
  - destruct (loop_body_break_inv x x' H) as [[_ ->] | [_ [_ ->]]].
    + split; [exact Hp |].
      exists []; split; [reflexivity | constructor].
    + split; [exact Hp |].
      exists [mk_twist (now (env x)) 0 (Num 0)]; split; [reflexivity |].
      repeat constructor.
  - destruct (loop_body_continue_inv x x' H) as [_ [_ [a [_ ->]]]].
    unfold after_motion; rewrite Hp; split; [exact Hp |].
    exists []; split; [reflexivity | constructor].
Qed.

Lemma execute_loop_after_preempt (sched : list (list Event)) (x x' : World) :
  is_preempt_requested (env x) = true ->
  exec_world (execute_loop sched x) = Some x' ->
  exists zs,
    published (env x') = zs ++ published (env x) /\ Forall zero_twist zs.
Proof.
  revert x; induction sched as [| evs sched IH]; intros x Hp; simpl.
  - intros H; injection H as <-.
    exists []; split; [reflexivity | constructor].
  - pose proof (deliver_all_keeps_preempt evs x Hp) as Hp1.
    destruct (deliver_all_after_preempt evs x) as [zs1 [E1 F1]].
    destruct (is_shutdown (env (deliver_all evs x))).
    + simpl; intros H; injection H as <-; now exists zs1.
    + destruct (loop_body (deliver_all evs x)) as [[x2 b] |] eqn:Hb;
        [| discriminate].
      destruct (loop_body_after_preempt _ _ _ Hp1 Hb) as [Hp2 [zs2 [E2 F2]]].
      assert (Hx2 : exists zs, published (env x2) = zs ++ published (env x) /\
                               Forall zero_twist zs).
      { exists (zs2 ++ zs1); split.
        - now rewrite E2, E1, app_assoc.
        - apply Forall_app; now split. }
      destruct b.
      * simpl; intros H; injection H as <-; exact Hx2.
      * intros H.
        destruct (IH x2 Hp2 H) as [zs3 [E3 F3]].
        destruct Hx2 as [zs [E F]].
        exists (zs3 ++ zs); split.
        -- now rewrite E3, E, app_assoc.
        -- apply Forall_app; now split.
Qed.

Lemma exec_world_defined (sched : list (list Event)) (x : World) :
  exists x', exec_world (execute_loop sched x) = Some x'.
Proof.
  pose proof (execute_loop_never_raises sched x) as H.
  destruct (execute_loop sched x) as [x' o | x' |];
    [now exists x' | now exists x' | now elim H].
Qed.

(** * Further properties of the vector class *)

Lemma vector_length_sqr (a : vector) :
  vector_length a * vector_length a = np_dot a a.
Proof. unfold vector_length; apply sqrt_sqrt, np_dot_self_nonneg. Qed.





Lemma np_dot_rotate (a b : vector) (t : R) :
  np_dot (vector_rotate a t) (vector_rotate b t) = np_dot a b.
Proof.
  unfold np_dot, vector_rotate; simpl.
  pose proof (sin2_cos2 t) as H; unfold Rsqr in H.
  replace ((cos t * vec0 a - sin t * vec1 a) * (cos t * vec0 b - sin t * vec1 b) +
           (sin t * vec0 a + cos t * vec1 a) * (sin t * vec0 b + cos t * vec1 b))
    with ((vec0 a * vec0 b + vec1 a * vec1 b) * (sin t * sin t + cos t * cos t))
    by ring.
  rewrite H; ring.
Qed.

Lemma vector_length_rotate (a : vector) (t : R) :
  vector_length (vector_rotate a t) = vector_length a.
Proof. unfold vector_length; now rewrite np_dot_rotate. Qed.

(** X3: [rotate] keeps the length of a vector, and rotating two vectors by
    the same angle keeps the angle between them. *)
Theorem rotate_is_rigid (a b : vector) (t : R) :
  vector_length (vector_rotate a t) = vector_length a /\
  np_dot (vector_rotate a t) (vector_rotate b t) = np_dot a b /\
  vector_angle (vector_rotate a t) (vector_rotate b t) = vector_angle a b.
Proof.
  split; [apply vector_length_rotate |].
  split; [apply np_dot_rotate |].
  unfold vector_angle, vector_angle_fl.
  now rewrite np_dot_rotate, !vector_length_rotate.
Qed.

Lemma vector_rotate_add (a : vector) (s t : R) :
  vector_rotate (vector_rotate a s) t = vector_rotate a (s + t).
Proof.
  unfold vector_rotate; simpl.
  rewrite cos_plus, sin_plus; f_equal; ring.
Qed.

Lemma vector_rotate_0 (a : vector) : vector_rotate a 0 = a.
Proof.
  destruct a as [a0 a1]; unfold vector_rotate; simpl.
  rewrite cos_0, sin_0; f_equal; ring.
Qed.

(** X4: rotations compose by adding their angles: rotating by 0 changes
    nothing, and rotating back by the opposite angle undoes a rotation. *)
Theorem rotate_composes (a : vector) (s t : R) :
  vector_rotate (vector_rotate a s) t = vector_rotate a (s + t) /\
  vector_rotate a 0 = a /\
  vector_rotate (vector_rotate a t) (- t) = a.
Proof.
  split; [apply vector_rotate_add |].
  split; [apply vector_rotate_0 |].
  rewrite vector_rotate_add.
  replace (t + - t) with 0 by ring.
  apply vector_rotate_0.
Qed.





(** * Further properties of the heading *)

Lemma sqrt_one_plus_sqr (x y n : R) :
  0 < x -> 0 < n -> n * n = x * x + y * y ->
  sqrt (1 + (y / x)²) = n / x.
Proof.
  intros Hx Hn Hnn.
  apply sqrt_lem_1.
  - pose proof (Rle_0_sqr (y / x)); lra.
  - apply Rlt_le, Rdiv_lt_0_compat; assumption.
  - replace (1 + (y / x)²) with ((x * x + y * y) / (x * x))
      by (unfold Rsqr; field; lra).
    rewrite <- Hnn; field; lra.
Qed.

(** Cosine and sine of [math.atan2 y x] for a point off the origin. *)
Lemma math_atan2_direction (x y : R) :
  let n := sqrt (x * x + y * y) in
  0 < n ->
  cos (math_atan2 y x) = x / n /\ sin (math_atan2 y x) = y / n.
Proof.
  intros n Hn.
  assert (Hnn : n * n = x * x + y * y).
  { unfold n; apply sqrt_sqrt.
    pose proof (Rle_0_sqr x); pose proof (Rle_0_sqr y); unfold Rsqr in *; lra. }
  unfold math_atan2.
  destruct (Rlt_dec 0 x) as [Hx | Hx].
  - rewrite cos_atan, sin_atan, (sqrt_one_plus_sqr x y n Hx Hn Hnn).
    split; field; lra.
  - destruct (Rlt_dec x 0) as [Hx' | Hx'].
    + assert (Hs : sqrt (1 + (y / x)²) = n / - x).
      { replace ((y / x)²) with ((y / - x)²)
          by (unfold Rsqr; field; lra).
        apply sqrt_one_plus_sqr; [lra | exact Hn | rewrite Hnn; ring]. }
      destruct (Rle_dec 0 y) as [Hy | Hy].
      * rewrite neg_cos, neg_sin, cos_atan, sin_atan, Hs.
        split; field; lra.
      * rewrite cos_minus, sin_minus, cos_PI, sin_PI, cos_atan, sin_atan, Hs.
        split; field; lra.
    + assert (Hx0 : x = 0) by lra.
      subst x.
      assert (Hyy : n * n = y * y) by lra.
      destruct (Rlt_dec 0 y) as [Hy | Hy].
      * assert (E : n = y) by nra.
        rewrite cos_PI2, sin_PI2, E; split; field; lra.
      * destruct (Rlt_dec y 0) as [Hy' | Hy'].
        -- assert (E : n = - y) by nra.
           rewrite cos_neg, sin_neg, cos_PI2, sin_PI2, E; split; field; lra.
        -- exfalso; assert (y = 0) by lra; subst y; nra.
Qed.



(** X7: for the unit quaternion of a rotation by [psi] about the vertical
    axis, the heading vector is (cos psi, sin psi). *)
Theorem heading_of_yaw (psi : R) :
  heading (yaw_quaternion psi) = mk_vector (cos psi) (sin psi).
Proof.
  unfold heading, yaw_quaternion, math_pow2; simpl.
  replace (2 * (0 * 0 + sin (psi / 2) * cos (psi / 2))) with (sin psi).
  2: { replace psi with (2 * (psi / 2)) at 1 by field.
       rewrite sin_2a; ring. }
  replace (1 - 2 * (0 * (0 * 1) + sin (psi / 2) * (sin (psi / 2) * 1)))
    with (cos psi).
  2: { replace psi with (2 * (psi / 2)) at 1 by field.
       rewrite cos_2a_sin; ring. }
  assert (Hn : sqrt (cos psi * cos psi + sin psi * sin psi) = 1).
  { replace (cos psi * cos psi + sin psi * sin psi)
      with (Rsqr (sin psi) + Rsqr (cos psi)) by (unfold Rsqr; ring).
    rewrite sin2_cos2; apply sqrt_1. }
  destruct (math_atan2_direction (cos psi) (sin psi)) as [Hc Hs].
  { rewrite Hn; lra. }
  rewrite Hn in Hc, Hs.
  rewrite Hc, Hs; f_equal; field.
Qed.

(** * Further properties of the loop *)











(** * Further properties of runs *)

Lemma same_config_refl (s : positionGoalActionServer) : same_config s s.
Proof. repeat split. Qed.

Lemma same_config_trans (s1 s2 s3 : positionGoalActionServer) :
  same_config s1 s2 -> same_config s2 s3 -> same_config s1 s3.
Proof.
  unfold same_config; intros [A1 [A2 [A3 A4]]] [B1 [B2 [B3 B4]]].
  repeat split; congruence.
Qed.

Lemma deliver_config (ev : Event) (x : World) :
  same_config (self x) (self (deliver ev x)).
Proof. destruct ev; repeat split. Qed.

Lemma deliver_all_config (evs : list Event) (x : World) :
  same_config (self x) (self (deliver_all evs x)).
Proof.
  revert x; induction evs as [| ev evs IH]; intros x; simpl.
  - apply same_config_refl.
  - eapply same_config_trans; [apply deliver_config | apply IH].
Qed.

Lemma loop_body_config (x x' : World) (b : bool) :
  loop_body x = Some (x', b) -> same_config (self x) (self x').
Proof.
  intros H; destruct b.
  - destruct (loop_body_break_inv x x' H) as [[_ ->] | [_ [_ ->]]];
      repeat split.
  - destruct (loop_body_continue_inv x x' H) as [_ [_ [a [_ ->]]]];
      repeat split.
Qed.

Lemma execute_loop_config (sched : list (list Event)) (x x' : World) :
  exec_world (execute_loop sched x) = Some x' ->
  same_config (self x) (self x').
Proof.
  revert x; induction sched as [| evs sched IH]; intros x; simpl.
  - intros H; injection H as <-; apply same_config_refl.
  - pose proof (deliver_all_config evs x) as C1.
    destruct (is_shutdown (env (deliver_all evs x))).
    + simpl; intros H; injection H as <-; exact C1.
    + destruct (loop_body (deliver_all evs x)) as [[x2 b] |] eqn:Hb;
        [| discriminate].
      pose proof (loop_body_config _ _ _ Hb) as C2.
      pose proof (same_config_trans _ _ _ C1 C2) as C3.
      destruct b.
      * simpl; intros H; injection H as <-; exact C3.
      * intros H; eapply same_config_trans; [exact C3 | now apply IH].
Qed.

(** X11: whatever happens during a run of [execute], the three parameters
    keep their values and the destination stays the goal of the run. *)
Theorem run_keeps_configuration (goal : positionGoal)
    (sched : list (list Event)) (x x' : World) :
  exec_world (execute goal sched x) = Some x' ->
  max_linear_velocity (self x') = max_linear_velocity (self x) /\
  max_angular_velocity (self x') = max_angular_velocity (self x) /\
  max_distance_error (self x') = max_distance_error (self x) /\
  destination (self x') = mk_vector (goal_x goal) (goal_y goal).
Proof.
  unfold execute; intros H.
  apply execute_loop_config in H.
  destruct H as [H1 [H2 [H3 H4]]].
  repeat split; assumption.
Qed.

Lemma run_keeps_configuration_witness :
  exists x',
    exec_world
      (execute (mk_goal 5 0) [[]; [EvOdometry (mk_odometry 0 0 0 1 1 1)]; []]
               (start_world 2 1 (1 / 10) (mk_vector 0 0) 0)) = Some x' /\
    max_linear_velocity (self x') = 2 /\
    max_angular_velocity (self x') = 1 /\
    max_distance_error (self x') = 1 / 10 /\
    destination (self x') = mk_vector 5 0.
Proof.
  set (x := start_world 2 1 (1 / 10) (mk_vector 0 0) 0).
  set (sched := [[]; [EvOdometry (mk_odometry 0 0 0 1 1 1)]; []]).
  destruct (exec_world_defined sched
              (mk_world (set_destination (mk_vector 5 0) (self x)) (env x)))
    as [x' E].
  exists x'; split; [exact E |].
  exact (run_keeps_configuration (mk_goal 5 0) sched x x' E).
Defined.

Lemma deliver_keeps_shutdown (ev : Event) (x : World) :
  is_shutdown (env x) = true -> is_shutdown (env (deliver ev x)) = true.
Proof. destruct ev; simpl; auto. Qed.

Lemma deliver_all_keeps_shutdown (evs : list Event) (x : World) :
  is_shutdown (env x) = true ->
  is_shutdown (env (deliver_all evs x)) = true.
Proof.
  revert x; induction evs as [| ev evs IH]; intros x H; simpl; [exact H |].
  apply IH; now apply deliver_keeps_shutdown.
Qed.

Lemma deliver_all_shutdown (evs : list Event) (x : World) :
  In EvShutdown evs -> is_shutdown (env (deliver_all evs x)) = true.
Proof.
  revert x; induction evs as [| ev evs IH]; intros x Hin; [contradiction |].
  destruct Hin as [-> | Hin]; simpl.
  - now apply deliver_all_keeps_shutdown.
  - now apply IH.
Qed.

(** X13: when shutdown is signalled while a run of [execute] is in its
    loop, the next test of the loop condition ends the run without another
    pass through the body, so the loop publishes no stop command; the run
    returns aborted, or preempted if a preemption is requested as well. *)
Theorem shutdown_ends_run (goal : positionGoal)
    (pre post : list (list Event)) (evs : list Event) (x x1 : World) :
  execute goal pre x = Running x1 ->
  In EvShutdown evs ->
  execute goal (pre ++ evs :: post) x =
  Returned (deliver_all evs x1)
           (if is_preempt_requested (env (deliver_all evs x1))
            then preempted else aborted).
Proof.
  unfold execute; intros Hrun Hin.
  rewrite execute_loop_app, Hrun; simpl.
  rewrite (deliver_all_shutdown evs x1 Hin).
  unfold execute_return.
  now rewrite (deliver_all_shutdown evs x1 Hin).
Qed.

Lemma shutdown_ends_run_witness :
  execute (mk_goal 3 4) ([] ++ [EvShutdown] :: [[]])
          (start_world 2 1 (1 / 10) (mk_vector 0 0) 0) =
  Returned (deliver_all [EvShutdown]
              (start_world 2 1 (1 / 10) (mk_vector 3 4) 0))
           aborted.
Proof.
  apply (shutdown_ends_run (mk_goal 3 4) [] [[]] [EvShutdown]
           (start_world 2 1 (1 / 10) (mk_vector 0 0) 0)
           (start_world 2 1 (1 / 10) (mk_vector 3 4) 0)).
  - reflexivity.
  - simpl; now left.
Defined.

(** X14: when the goal is reached while a preemption is requested, the
    pass still calls [set_succeeded] and publishes its zero command, but
    [execute] returns preempted: the returned string and the state set on
    the server disagree. *)
Theorem reached_while_preempted (rest : list (list Event)) (x : World) :
  is_shutdown (env x) = false ->
  is_new_goal_available (env x) = false ->
  is_preempt_requested (env x) = true ->
  vector_length (path_of x) <= max_distance_error (self x) ->
  exists x',
    execute_loop ([] :: rest) x = Returned x' preempted /\
    server_status (env x') = succeeded :: server_status (env x) /\
    published (env x') = mk_twist (now (env x)) 0 (Num 0) :: published (env x).
Proof.
  intros Hsd Hng Hp Hd.
  exists (after_reached x).
  rewrite (execute_loop_reached rest x Hsd Hng Hd).
  unfold execute_return; rewrite Hp.
  repeat split.
Qed.

Lemma reached_while_preempted_witness :
  exists x',
    execute_loop [[]]
      (deliver EvCancel (start_world 2 1 (1 / 10) (mk_vector 0 0) 0))
    = Returned x' preempted /\
    server_status (env x') = [succeeded; preempted] /\
    published (env x') = [mk_twist 0 0 (Num 0); mk_twist 0 0 (Num 0)].
Proof.
  apply (reached_while_preempted []
           (deliver EvCancel (start_world 2 1 (1 / 10) (mk_vector 0 0) 0)));
    try reflexivity.
  change (path_of (deliver EvCancel (start_world 2 1 (1 / 10) (mk_vector 0 0) 0)))
    with (path_of (start_world 2 1 (1 / 10) (mk_vector 0 0) 0)).
  rewrite path_length_east; simpl; lra.
Defined.

(** X15: the loop works on the last pose received: if a pose message
    arrives that places the robot within the tolerance of the destination,
    the next pass succeeds and ends the run, wherever the robot was cached
    before. *)
Theorem odometry_then_reached (msg : Odometry) (rest : list (list Event))
    (x : World) :
  is_shutdown (env x) = false ->
  is_new_goal_available (env x) = false ->
  vector_length
    (vector_sub (destination (self x))
                (mk_vector (position_x msg) (position_y msg)))
  <= max_distance_error (self x) ->
  exists x',
    execute_loop ([EvOdometry msg] :: rest) x =
      Returned x' (execute_return (env x)) /\
    position (self x') = mk_vector (position_x msg) (position_y msg) /\
    server_status (env x') = succeeded :: server_status (env x) /\
    published (env x') = mk_twist (now (env x)) 0 (Num 0) :: published (env x).
Proof.
  intros Hsd Hng Hd.
  exists (after_reached (onOdometry msg x)).
  change (execute_loop ([EvOdometry msg] :: rest) x)
    with (execute_loop ([] :: rest) (onOdometry msg x)).
  rewrite (execute_loop_reached rest (onOdometry msg x) Hsd Hng Hd).
  repeat split.
Qed.

Lemma odometry_then_reached_witness :
  exists x',
    execute_loop [[EvOdometry (mk_odometry 0 0 0 1 5 0)]]
                 (start_world 2 1 (1 / 10) (mk_vector 5 0) 2)
    = Returned x' succeeded /\
    position (self x') = mk_vector 5 0 /\
    server_status (env x') = [succeeded] /\
    published (env x') = [mk_twist 2 0 (Num 0)].
Proof.
  apply (odometry_then_reached (mk_odometry 0 0 0 1 5 0) []
           (start_world 2 1 (1 / 10) (mk_vector 5 0) 2));
    try reflexivity.
  simpl. unfold vector_sub; simpl.
  replace (5 - 5) with 0 by ring. replace (0 - 0) with 0 by ring.
  rewrite vector_length_zero; lra.
Defined.








(** * The guard of [angle] against rounding *)

Lemma ulp_factor_gt_1 : 1 < 1 + / 2 ^ 52.
Proof.
  assert (H : 0 < / 2 ^ 52) by (apply Rinv_0_lt_compat, pow_lt; lra).
  lra.
Qed.

Lemma np_dot_sample : np_dot (mk_vector (7 / 10) (1 / 10))
                             (mk_vector (7 / 10) (1 / 10)) = 1 / 2.
Proof. unfold np_dot; simpl; field. Qed.

Lemma np_dot_sample_opposite :
  np_dot (mk_vector (7 / 10) (1 / 10)) (mk_vector (- (7 / 10)) (- (1 / 10)))
  = - (1 / 2).
Proof. unfold np_dot; simpl; field. Qed.

Lemma vector_length_sample_opposite :
  vector_length (mk_vector (- (7 / 10)) (- (1 / 10))) =
  vector_length (mk_vector (7 / 10) (1 / 10)).
Proof.
  unfold vector_length; f_equal; unfold np_dot; simpl; field.
Qed.

(** C7: whatever quotient the division of line 28 delivers for two
    vectors, [angle] returns 0 when the quotient exceeds 1 and PI when it
    is below -1, and it never raises; on such a quotient the inverse
    cosine alone would raise, so it is the two tests that keep its
    argument in range.  [angle] in exact arithmetic is the same code with
    the exact quotient. *)
Theorem angle_never_raises :
  (forall fl_div a b,
      py_gt (fl_div (np_dot a b) (vector_length a * vector_length b)) 1 = true ->
      vector_angle_fl fl_div a b = Some (Num 0)) /\
  (forall fl_div a b,
      py_lt (fl_div (np_dot a b) (vector_length a * vector_length b)) (-1) = true ->
      vector_angle_fl fl_div a b = Some (Num PI)) /\
  (forall fl_div a b, vector_angle_fl fl_div a b <> None) /\
  (forall fl_div a b,
      py_gt (fl_div (np_dot a b) (vector_length a * vector_length b)) 1 = true \/
      py_lt (fl_div (np_dot a b) (vector_length a * vector_length b)) (-1) = true ->
      math_acos (fl_div (np_dot a b) (vector_length a * vector_length b)) = None) /\
  (forall a b, vector_angle a b = vector_angle_fl np_divide a b).
Proof.
  repeat split.
  - intros fl_div a b H; unfold vector_angle_fl, clamped_acos.
    rewrite H; apply math_acos_1.
  - intros fl_div a b H; unfold vector_angle_fl, clamped_acos.
    rewrite H.
    replace (py_gt _ 1) with false; [apply math_acos_m1 |].
    destruct (fl_div _ _) as [q | p |]; simpl in *; try reflexivity.
    + case_Rdec; try reflexivity; try discriminate H; exfalso; lra.
    + now destruct p.
  - intros fl_div a b H; unfold vector_angle_fl in H.
    destruct (clamped_acos_total
                (fl_div (np_dot a b) (vector_length a * vector_length b)))
      as [v [Hv _]].
    congruence.
  - intros fl_div a b H.
    destruct (fl_div _ _) as [q | p |]; simpl in *.
    + destruct (Rgt_dec q 1) as [Hgt | Hgt];
        destruct (Rlt_dec q (-1)) as [Hlt | Hlt];
        destruct (Rle_dec (-1) q) as [Hlo' | Hlo'];
        destruct (Rle_dec q 1) as [Hhi' | Hhi'];
        try reflexivity; exfalso; try lra;
        destruct H as [H | H]; discriminate H.
    + reflexivity.
    + destruct H as [H | H]; discriminate H.
Qed.

Lemma angle_never_raises_witness :
  vector_angle_fl fl_div_ulp (mk_vector (7 / 10) (1 / 10))
                             (mk_vector (7 / 10) (1 / 10)) = Some (Num 0) /\
  vector_angle_fl fl_div_ulp (mk_vector (7 / 10) (1 / 10))
                             (mk_vector (- (7 / 10)) (- (1 / 10)))
  = Some (Num PI) /\
  math_acos (fl_div_ulp
               (np_dot (mk_vector (7 / 10) (1 / 10))
                       (mk_vector (7 / 10) (1 / 10)))
               (vector_length (mk_vector (7 / 10) (1 / 10)) *
                vector_length (mk_vector (7 / 10) (1 / 10)))) = None.
Proof.
  destruct angle_never_raises as [Hhi [Hlo [_ [Hraw _]]]].
  pose proof ulp_factor_gt_1 as Hu.
  assert (Hq : py_gt (fl_div_ulp
                        (np_dot (mk_vector (7 / 10) (1 / 10))
                                (mk_vector (7 / 10) (1 / 10)))
                        (vector_length (mk_vector (7 / 10) (1 / 10)) *
                         vector_length (mk_vector (7 / 10) (1 / 10)))) 1 = true).
  { rewrite vector_length_sqr, np_dot_sample; unfold fl_div_ulp, py_gt.
    replace (1 / 2 / (1 / 2)) with 1 by field.
    destruct (Rgt_dec (1 * (1 + / 2 ^ 52)) 1) as [_ | H];
      [reflexivity | exfalso; lra]. }
  split; [now apply Hhi |].
  split; [| apply Hraw; now left].
  apply Hlo.
  rewrite vector_length_sample_opposite, vector_length_sqr,
    np_dot_sample_opposite, np_dot_sample.
  unfold fl_div_ulp, py_lt.
  replace (- (1 / 2) / (1 / 2)) with (-1) by field.
  destruct (Rlt_dec (-1 * (1 + / 2 ^ 52)) (-1)) as [_ | H];
    [reflexivity | exfalso; lra].
Defined.

(** * The loop and the preemption callback as two threads *)

Lemma loop_step_test_motion (x : World) :
  is_shutdown (env x) = false ->
  is_new_goal_available (env x) = false ->
  vector_length (path_of x) > max_distance_error (self x) ->
  exists a,
    signed_angle (heading (quaternion (self x))) (path_of x) = Some a /\
    loop_step x LTest = Some (raw_motion x a, LLimit).
Proof.
  intros Hsd Hng Hd.
  destruct (signed_angle_total (heading (quaternion (self x))) (path_of x))
    as [a [Ha _]].
  exists a; split; [exact Ha |].
  unfold loop_step; rewrite Hsd, Hng; simpl.
  fold (path_of x).
  destruct (Rgt_dec (vector_length (path_of x)) (max_distance_error (self x)))
    as [_ | Hn]; [| contradiction].
  now rewrite Ha.
Qed.

(** A callback that runs from its call to its end with nothing in between
    is the callback of the runs of [execute_loop]. *)
Lemma callback_uninterrupted (ev : Event) (x : World) (pc : LoopPc) :
  ev = EvCancel \/ ev = EvNewGoal ->
  run_threads [AArrive ev; ACallback; ACallback; ACallback]
              (mk_threads x pc CIdle)
  = Some (mk_threads (deliver ev x) pc CIdle).
Proof. intros [-> | ->]; reflexivity. Qed.

(** A pass of the loop thread with nothing in between is a pass of
    [loop_body]. *)
Lemma pass_uninterrupted (x x' : World) (cb : CallbackPc) :
  is_shutdown (env x) = false ->
  loop_body x = Some (x', false) ->
  run_threads
    (ALoop :: ALoop :: ALoop ::
     (if is_preempt_requested (env x) then [] else [ALoop]))
    (mk_threads x LTest cb)
  = Some (mk_threads x' LTest cb).
Proof.
  intros Hsd H.
  destruct (loop_body_continue_inv x x' H) as [Hng [Hd [a [Ha ->]]]].
  destruct (loop_step_test_motion x Hsd Hng Hd) as [a' [Ha' Hstep]].
  rewrite Ha in Ha'; injection Ha' as <-.
  cbn [run_threads thread_step world loop_pc callback_pc].
  rewrite Hstep.
  unfold after_motion, motion_twist, raw_motion.
  destruct (is_preempt_requested (env x)) eqn:Hp; simpl; rewrite Hp;
    reflexivity.
Qed.

Lemma pass_uninterrupted_break (x x' : World) (cb : CallbackPc) :
  is_shutdown (env x) = false ->
  loop_body x = Some (x', true) ->
  run_threads [ALoop] (mk_threads x LTest cb)
  = Some (mk_threads x' (LReturned (execute_return (env x'))) cb).
Proof.
  intros Hsd H.
  cbn [run_threads thread_step world loop_pc callback_pc].
  unfold loop_step; rewrite Hsd.
  destruct (loop_body_break_inv x x' H) as [[Hng ->] | [Hng [Hd ->]]].
  - now rewrite Hng.
  - rewrite Hng; simpl; fold (path_of x).
    destruct (Rgt_dec (vector_length (path_of x)) (max_distance_error (self x)))
      as [Hgt | _]; [exfalso; lra | reflexivity].
Qed.

(** C8, as stated, fails when the cancellation arrives in the middle of a
    pass: the loop tests the flag on line 128, the cancellation is then
    requested, and lines 129-130 publish the motion command computed
    before. *)
Lemma cancel_races_publication :
  ~ (forall (x : World) (pre post : list Action) (st1 st2 : Threads),
        run_threads pre (idle x) = Some st1 ->
        is_preempt_requested (env (world st1)) = true ->
        run_threads post st1 = Some st2 ->
        exists zs,
          published (env (world st2)) = zs ++ published (env (world st1)) /\
          Forall zero_twist zs).
Proof.
  intros H.
  set (x := start_world 2 1 (1 / 10) (mk_vector 5 0) 0).
  assert (Hl : vector_length (path_of x) = 5)
    by (apply path_length_east; lra).
  destruct (loop_step_test_motion x eq_refl eq_refl) as [a [_ Hstep]].
  { rewrite Hl; simpl; lra. }
  set (t := mk_twist 0 (limit_linear 2 (vector_length (path_of x)))
                     (limit_angular 1 a)).
  set (s3 := set_twist t (self (raw_motion x a))).
  set (st1 := mk_threads
                (mk_world s3 (request_preempt false (env x)))
                LPublish CEntered).
  assert (E1 : run_threads [ALoop; ALoop; ALoop; AArrive EvCancel] (idle x)
               = Some st1).
  { cbn [run_threads thread_step idle world loop_pc callback_pc].
    rewrite Hstep; reflexivity. }
  destruct (H x _ [ALoop] st1 _ E1 eq_refl eq_refl) as [zs [Hz Fz]].
  change (published (env (world st1))) with (@nil TwistStamped) in Hz.
  rewrite app_nil_r in Hz.
  simpl in Hz; subst zs.
  inversion Fz as [| t' l' [Hzero _] _]; subst.
  simpl in Hzero.
  rewrite Hl, limit_linear_2_5 in Hzero; lra.
Qed.

(** C8 (amended): when the preemption callback runs between two passes of
    the loop, not in the middle of one: the callback publishes a zero
    command and then marks the goal preempted; the loop publishes its
    motion command only when no preemption is requested; so from a
    cancellation or a superseding goal on, every command published during
    the run is a zero command.  (A callback and a pass that run with
    nothing in between are those of the runs followed here.) *)
Theorem preempt_only_stops :
  (forall ev x pc,
      ev = EvCancel \/ ev = EvNewGoal ->
      run_threads [AArrive ev; ACallback; ACallback; ACallback]
                  (mk_threads x pc CIdle)
      = Some (mk_threads (deliver ev x) pc CIdle)) /\
  (forall x x' cb,
      is_shutdown (env x) = false ->
      loop_body x = Some (x', false) ->
      run_threads
        (ALoop :: ALoop :: ALoop ::
         (if is_preempt_requested (env x) then [] else [ALoop]))
        (mk_threads x LTest cb)
      = Some (mk_threads x' LTest cb)) /\
  (forall x,
      published (env (preempt_cb x)) =
        mk_twist (now (env x)) 0 (Num 0) :: published (env x) /\
      server_status (env (preempt_cb x)) =
        preempted :: server_status (env x)) /\
  (forall x x',
      loop_body x = Some (x', false) ->
      is_preempt_requested (env x) = true ->
      published (env x') = published (env x)) /\
  (forall x x',
      loop_body x = Some (x', false) ->
      is_preempt_requested (env x) = false ->
      published (env x') = twist (self x') :: published (env x)) /\
  (forall ev sched x x',
      ev = EvCancel \/ ev = EvNewGoal ->
      exec_world (execute_loop sched (deliver ev x)) = Some x' ->
      exists zs,
        published (env x') = zs ++ published (env x) /\
        Forall zero_twist zs).
Proof.
  split; [intros ev x pc Hev; now apply callback_uninterrupted |].
  split; [intros x x' cb Hsd Hb; now apply pass_uninterrupted |].
  repeat split.
  - intros x x' H Hp.
    destruct (loop_body_continue_inv x x' H) as [_ [_ [a [_ ->]]]].
    unfold after_motion; now rewrite Hp.
  - intros x x' H Hp.
    destruct (loop_body_continue_inv x x' H) as [_ [_ [a [_ ->]]]].
    unfold after_motion; now rewrite Hp.
  - intros ev sched x x' Hev H.
    assert (Hp : is_preempt_requested (env (deliver ev x)) = true)
      by (destruct Hev as [-> | ->]; reflexivity).
    destruct (execute_loop_after_preempt sched _ _ Hp H) as [zs [E F]].
    destruct (deliver_after_preempt ev x) as [zs0 [E0 F0]].
    exists (zs ++ zs0); split.
    + now rewrite E, E0, app_assoc.
    + apply Forall_app; now split.
Qed.

Lemma preempt_only_stops_witness :
  (exists x',
      loop_body (deliver EvCancel (start_world 2 1 (1 / 10) (mk_vector 5 0) 0))
      = Some (x', false) /\
      published (env x') = [mk_twist 0%nat 0 (Num 0)]) /\
  (exists x',
      loop_body (start_world 2 1 (1 / 10) (mk_vector 5 0) 0)
      = Some (x', false) /\
      published (env x') = [twist (self x')] /\
      run_threads [ALoop; ALoop; ALoop; ALoop]
                  (idle (start_world 2 1 (1 / 10) (mk_vector 5 0) 0))
      = Some (idle x')) /\
  (exists x' zs,
      exec_world
        (execute_loop [[]; []]
           (deliver EvCancel (start_world 2 1 (1 / 10) (mk_vector 5 0) 0)))
      = Some x' /\
      published (env x') = zs /\
      Forall zero_twist zs) /\
  run_threads [AArrive EvCancel; ACallback; ACallback; ACallback]
              (idle (start_world 2 1 (1 / 10) (mk_vector 5 0) 0))
  = Some (idle (deliver EvCancel (start_world 2 1 (1 / 10) (mk_vector 5 0) 0))).
Proof.
  set (x := start_world 2 1 (1 / 10) (mk_vector 5 0) 0).
  set (xc := deliver EvCancel x).
  destruct preempt_only_stops as [Hcb [Hpass [_ [Hquiet [Hmove Hrun]]]]].
  assert (Hl : vector_length (path_of x) = 5)
    by (apply path_length_east; lra).
  split; [| split; [| split]].
  - destruct (loop_body_motion xc eq_refl) as [a [_ Hb]].
    { change (path_of xc) with (path_of x); rewrite Hl; simpl; lra. }
    exists (after_motion xc a); split; [exact Hb |].
    now rewrite (Hquiet xc _ Hb).
  - destruct (loop_body_motion x eq_refl) as [a [_ Hb]].
    { rewrite Hl; simpl; lra. }
    exists (after_motion x a); split; [exact Hb |].
    split; [now apply (Hmove x _ Hb) |].
    exact (Hpass x _ CIdle eq_refl Hb).
  - destruct (exec_world_defined [[]; []] xc) as [x' E].
    destruct (Hrun EvCancel [[]; []] x x' (or_introl eq_refl) E)
      as [zs [Hz Fz]].
    exists x', zs; repeat split; trivial.
    now rewrite Hz, app_nil_r.
  - exact (Hcb EvCancel x LTest (or_introl eq_refl)).
Defined.

(** X12: the preemption callback and the loop write the same twist.  When
    the callback has zeroed the twist (lines 76-78) and the loop, far from
    the goal, then writes its raw errors (lines 94-115) before the callback
    publishes (line 79), the command the callback publishes carries the
    distance error itself, neither zero nor limited. *)
Theorem interleaved_callback_publishes_raw_error (x : World) :
  is_shutdown (env x) = false ->
  is_new_goal_available (env x) = false ->
  vector_length (path_of x) > max_distance_error (self x) ->
  exists a st,
    signed_angle (heading (quaternion (self x))) (path_of x) = Some a /\
    run_threads [AArrive EvCancel; ACallback; ALoop; ACallback] (idle x)
    = Some st /\
    callback_pc st = CPublished /\
    published (env (world st)) =
      mk_twist (now (env x)) (vector_length (path_of x)) a
      :: published (env x).
Proof.
  intros Hsd Hng Hd.
  set (x1 := mk_world
               (set_twist (mk_twist (now (env x)) 0 (Num 0)) (self x))
               (request_preempt false (env x))).
  destruct (loop_step_test_motion x1 Hsd Hng Hd) as [a [Ha Hstep]].
  assert (E : run_threads [AArrive EvCancel; ACallback; ALoop; ACallback]
                          (idle x)
              = match
                  match loop_step x1 LTest with
                  | Some (x', pc') => Some (mk_threads x' pc' CZeroed)
                  | None => None
                  end
                with
                | Some st' => run_threads [ACallback] st'
                | None => None
                end) by reflexivity.
  rewrite Hstep in E.
  exists a; eexists; split; [exact Ha |].
  split; [exact E |].
  split; reflexivity.
Qed.

Lemma interleaved_callback_publishes_raw_error_witness :
  exists a st,
    run_threads [AArrive EvCancel; ACallback; ALoop; ACallback]
                (idle (start_world 2 1 (1 / 10) (mk_vector 5 0) 3))
    = Some st /\
    published (env (world st)) = [mk_twist 3 5 a].
Proof.
  set (x := start_world 2 1 (1 / 10) (mk_vector 5 0) 3).
  assert (Hl : vector_length (path_of x) = 5)
    by (apply path_length_east; lra).
  destruct (interleaved_callback_publishes_raw_error x eq_refl eq_refl)
    as [a [st [_ [Hrun [_ Hp]]]]].
  { rewrite Hl; simpl; lra. }
  exists a, st; split; [exact Hrun |].
  now rewrite Hp, Hl.
Defined.

(** X16: without a new pose the loop repeats its velocities: a second pass
    through the motion branch, at whatever clock reading, stores the same
    errors and builds the same linear and angular components as the first;
    when no preemption is requested it publishes them again, under the new
    stamp. *)
Theorem stale_pose_repeats_velocities (x x1 : World) (t : Time) :
  loop_body x = Some (x1, false) ->
  exists x2,
    loop_body (deliver (EvClock t) x1) = Some (x2, false) /\
    distance_error (self x2) = distance_error (self x1) /\
    angle_error (self x2) = angle_error (self x1) /\
    linear_x (twist (self x2)) = linear_x (twist (self x1)) /\
    angular_z (twist (self x2)) = angular_z (twist (self x1)) /\
    (is_preempt_requested (env x) = false ->
     stamp (twist (self x2)) = t /\
     published (env x2) =
       twist (self x2) :: twist (self x1) :: published (env x)).
Proof.
  intros H.
  destruct (loop_body_continue_inv x x1 H) as [Hng [Hd [a [Ha ->]]]].
  set (y := deliver (EvClock t) (after_motion x a)).
  assert (Hng1 : is_new_goal_available (env y) = false).
  { unfold y, after_motion; simpl.
    now destruct (is_preempt_requested (env x)). }
  destruct (loop_body_motion y Hng1) as [a' [Ha' Hb']]; [exact Hd |].
  change (signed_angle (heading (quaternion (self x))) (path_of x) = Some a')
    in Ha'.
  rewrite Ha in Ha'; injection Ha' as <-.
  exists (after_motion y a); split; [exact Hb' |].
  unfold y, after_motion, motion_twist.
  destruct (is_preempt_requested (env x)) eqn:Hp; simpl; rewrite ?Hp; simpl.
  - repeat split; discriminate.
  - repeat split.
Qed.

Lemma stale_pose_repeats_velocities_witness :
  exists x1 x2,
    loop_body (start_world 2 1 (1 / 10) (mk_vector 5 0) 0) = Some (x1, false) /\
    loop_body (deliver (EvClock 9) x1) = Some (x2, false) /\
    linear_x (twist (self x2)) = linear_x (twist (self x1)) /\
    angular_z (twist (self x2)) = angular_z (twist (self x1)) /\
    stamp (twist (self x2)) = 9%nat /\
    published (env x2) = [twist (self x2); twist (self x1)].
Proof.
  set (x := start_world 2 1 (1 / 10) (mk_vector 5 0) 0).
  assert (Hl : vector_length (path_of x) = 5)
    by (apply path_length_east; lra).
  destruct (loop_body_motion x eq_refl) as [a [_ Hb]].
  { rewrite Hl; simpl; lra. }
  destruct (stale_pose_repeats_velocities x _ 9%nat Hb)
    as [x2 [Hb2 [_ [_ [Hlin [Hang Hp]]]]]].
  destruct (Hp eq_refl) as [Hst Hpub].
  exists (after_motion x a), x2; repeat split; trivial.
Defined.




